(** * Bingo card validator: a shallow embedding of [app.py]

    The development follows the program: the tokenizer [parse_numbers],
    the per-card validator [validate_card], the table parser
    [parse_text_table], and the duplicate pass of the request handler
    [validate] (its lines between the parse and the render).

    Modelling conventions.
    - A Python [str] is a [string] holding the UTF-8 bytes of the text.  The
      character classes below are those of CPython on the ASCII range
      ([str.isspace], the line boundaries of [str.splitlines], the decimal
      digits); every byte above 127 is an ordinary character.  The model
      therefore agrees with the interpreter on every text whose white space,
      line breaks and digits are ASCII.
    - Python integers are unbounded: [Z].  The interpreter's optional cap on
      the length of decimal conversions is taken to be switched off.
    - A token is [option Z]; [None] is the marker the tokenizer appends for
      a fragment that [int] rejects.
    - Exceptions are values of [exn]; code that can raise lives in the
      [result] monad, and [try]/[except] is a match on the raised value.
    - The error strings that [validate_card] accumulates are kept as values
      of [error], one constructor per f-string; [render] is the f-string. *)

From Stdlib Require Import ZArith Ascii String DecimalString DecimalPos.
From stdpp Require Import base tactics option list strings gmap sorting.

Local Open Scope Z_scope.

(* [naive_solver] clears hypotheses it has already used. *)
Set Warnings "-clear-no-such-hyp".

(** ** Exceptions *)

Inductive exn : Set := ValueError | IndexError.

Inductive result (A : Type) : Type :=
| Ok (a : A)
| Raise (e : exn).
Arguments Ok {A} a.
Arguments Raise {A} e.

Global Instance result_ret : MRet result := λ A a, Ok a.
Global Instance result_bind : MBind result := λ A B k m,
  match m with
  | Ok a => k a
  | Raise e => Raise e
  end.

(** [for x in l: s = body(s, x)], stopping at the first exception. *)
Fixpoint for_each {A S} (l : list A) (s : S) (body : S → A → result S)
  : result S :=
  match l with
  | [] => Ok s
  | x :: l' => s' ← body s x; for_each l' s' body
  end.

(** ** Strings *)

Module Str.

(** [str.isspace] on one ASCII character. *)
Definition is_space (c : ascii) : bool :=
  match c with
  | "009" | "010" | "011" | "012" | "013"
  | "028" | "029" | "030" | "031" | " " => true
  | _ => false
  end%char.

(** The line boundaries of [str.splitlines]. *)
Definition is_linebreak (c : ascii) : bool :=
  match c with
  | "010" | "011" | "012" | "013" | "028" | "029" | "030" => true
  | _ => false
  end%char.

Definition is_empty (s : string) : bool :=
  match s with EmptyString => true | String _ _ => false end.

Fixpoint all (p : ascii → bool) (s : string) : bool :=
  match s with
  | EmptyString => true
  | String c s' => p c && all p s'
  end.

Fixpoint lstrip (s : string) : string :=
  match s with
  | EmptyString => EmptyString
  | String c s' => if is_space c then lstrip s' else s
  end.

Fixpoint rstrip (s : string) : string :=
  match s with
  | EmptyString => EmptyString
  | String c s' =>
      let r := rstrip s' in
      if is_space c && is_empty r then EmptyString else String c r
  end.

(** [s.strip()] *)
Definition strip (s : string) : string := rstrip (lstrip s).

(** [s.splitlines()]: [after_cr] remembers that the previous character
    was a carriage return, so that a following line feed belongs to the
    same boundary; a final boundary opens no empty last line. *)
Fixpoint splitlines_go (after_cr : bool) (cur : string) (s : string)
  : list string :=
  match s with
  | EmptyString => if is_empty cur then [] else [cur]
  | String c s' =>
      if after_cr && Ascii.eqb c "010" then splitlines_go false cur s'
      else if is_linebreak c then
        cur :: splitlines_go (Ascii.eqb c "013") EmptyString s'
      else splitlines_go false (cur +:+ String c EmptyString) s'
  end.
Definition splitlines (s : string) : list string :=
  splitlines_go false EmptyString s.

(** [re.split] for a pattern of the shape [[class]+]: the pieces between
    the maximal runs of [delim] characters, with an empty piece before a
    leading run and after a trailing one. *)
Fixpoint re_split_go (delim : ascii → bool) (in_run : bool) (cur : string)
    (s : string) : list string :=
  match s with
  | EmptyString => [cur]
  | String c s' =>
      if delim c then
        if in_run then re_split_go delim true EmptyString s'
        else cur :: re_split_go delim true EmptyString s'
      else re_split_go delim false (cur +:+ String c EmptyString) s'
  end.
Definition re_split (delim : ascii → bool) (s : string) : list string :=
  re_split_go delim false EmptyString s.

(** [sep.join(l)] *)
Fixpoint join (sep : string) (l : list string) : string :=
  match l with
  | [] => ""
  | [x] => x
  | x :: l' => x +:+ sep +:+ join sep l'
  end.

Definition is_digit (c : ascii) : bool :=
  (48 <=? nat_of_ascii c)%nat && (nat_of_ascii c <=? 57)%nat.

Definition digit_val (c : ascii) : Z := Z.of_nat (nat_of_ascii c) - 48.

(** The digit part of an integer literal: decimal digits, single
    underscores allowed between two digits. *)
Fixpoint int_digits (acc : Z) (prev_digit : bool) (s : string) : option Z :=
  match s with
  | EmptyString => if prev_digit then Some acc else None
  | String c s' =>
      if is_digit c then int_digits (10 * acc + digit_val c) true s'
      else if Ascii.eqb c "_" && prev_digit then int_digits acc false s'
      else None
  end.

(** [int(s)] on a [str]: surrounding white space, an optional sign, the
    digits; anything else raises [ValueError]. *)
Definition int (s : string) : result Z :=
  let s := strip s in
  let '(sign, body) :=
    match s with
    | String "+" r => (1, r)
    | String "-" r => (-1, r)
    | _ => (1, s)
    end in
  match int_digits 0 false body with
  | Some v => Ok (sign * v)
  | None => Raise ValueError
  end.

(** [str(n)] for an integer. *)
Definition of_int (n : Z) : string := NilZero.string_of_int (Z.to_int n).

End Str.

(** ** Tokenizer *)

(** A token: an integer, or [None] for a fragment that is not one. *)
Abbreviation token := (option Z) (only parsing).

Definition is_cell_delim (c : ascii) : bool :=
  Ascii.eqb c "," || Str.is_space c.

(** The body of [for p in parts]: skip an empty piece, otherwise append
    [int(p)], or [None] when [int] raises [ValueError]. *)
Definition parse_numbers_step (numbers : list token) (p : string)
  : result (list token) :=
  if String.eqb p "" then Ok numbers
  else
    match Str.int p with
    | Ok n => Ok (numbers ++ [Some n])
    | Raise ValueError => Ok (numbers ++ [None])
    | Raise e => Raise e
    end.

Definition parse_numbers (cell : string) : result (list token) :=
  if Str.is_empty cell || String.eqb (Str.strip cell) "" then Ok []
  else
    let parts := Str.re_split is_cell_delim (Str.strip cell) in
    for_each parts [] parse_numbers_step.

(** ** Card validator *)

Inductive column : Set := ColB | ColI | ColN | ColG | ColO.

Global Instance column_eq_dec : EqDecision column.
Proof. solve_decision. Defined.

(** The string the source uses as [col_name]. *)
Definition col_name (c : column) : string :=
  match c with
  | ColB => "B" | ColI => "I" | ColN => "N" | ColG => "G" | ColO => "O"
  end.

(** One constructor per [errors.append(...)] of [validate_card]. *)
Inductive error : Set :=
| ErrLength (c : column) (got : nat)
| ErrNonNumeric (c : column)
| ErrCenter (c : column) (num : Z)
| ErrRange (c : column) (num low high : Z)
| ErrDuplicate (c : column) (num : Z).

Global Instance error_eq_dec : EqDecision error.
Proof. solve_decision. Defined.

Definition err_column (e : error) : column :=
  match e with
  | ErrLength c _ | ErrNonNumeric c | ErrCenter c _
  | ErrRange c _ _ _ | ErrDuplicate c _ => c
  end.

(** The f-strings, in the order of the constructors. *)
Definition render (e : error) : string :=
  match e with
  | ErrLength c got =>
      col_name c +:+ ": expected 5 numbers, got " +:+ Str.of_int (Z.of_nat got)
  | ErrNonNumeric c => col_name c +:+ ": non‑numeric value"
  | ErrCenter c num =>
      col_name c +:+ " center should be 0, got " +:+ Str.of_int num
  | ErrRange c num low high =>
      col_name c +:+ ": " +:+ Str.of_int num +:+ " out of range ("
      +:+ Str.of_int low +:+ "-" +:+ Str.of_int high +:+ ")"
  | ErrDuplicate c num =>
      col_name c +:+ ": duplicate number " +:+ Str.of_int num
  end.

(** The state of the walk over one column: the errors of the card so far
    and the set [seen] of this column. *)
Definition walk_state : Type := list error * gset Z.

(** The body of [for pos, num in enumerate(numbers)]. *)
Definition check_token (c : column) (low high : Z) (st : walk_state)
    (pos : nat) (num : token) : walk_state :=
  let '(errors, seen) := st in
  match num with
  | None => (errors ++ [ErrNonNumeric c], seen)
  | Some num =>
      if bool_decide (c = ColN) && (pos =? 2)%nat then
        if bool_decide (num ≠ 0) then (errors ++ [ErrCenter c num], seen)
        else (errors, seen)
      else
        let errors :=
          if negb ((low <=? num) && (num <=? high))
          then errors ++ [ErrRange c num low high] else errors in
        let errors :=
          if bool_decide (num ∈ seen)
          then errors ++ [ErrDuplicate c num] else errors in
        (errors, {[num]} ∪ seen)
  end.

(** The inner loop, from position [pos] on. *)
Fixpoint walk (c : column) (low high : Z) (pos : nat) (numbers : list token)
    (st : walk_state) : walk_state :=
  match numbers with
  | [] => st
  | num :: rest =>
      walk c low high (S pos) rest (check_token c low high st pos num)
  end.

(** The body of [for col_name, numbers, (low, high) in columns]. *)
Definition check_column (errors : list error)
    (col : column * list token * (Z * Z)) : list error :=
  let '(c, numbers, (low, high)) := col in
  if bool_decide (length numbers ≠ 5%nat) then
    errors ++ [ErrLength c (length numbers)]
  else
    fst (walk c low high 0 numbers (errors, ∅)).

Definition columns (b_numbers i_numbers n_numbers g_numbers o_numbers
    : list token) : list (column * list token * (Z * Z)) :=
  [ (ColB, b_numbers, (1, 15));
    (ColI, i_numbers, (16, 30));
    (ColN, n_numbers, (31, 45));
    (ColG, g_numbers, (46, 60));
    (ColO, o_numbers, (61, 75)) ].

(** The list [errors] at the end of the outer loop. *)
Definition card_errors (b_numbers i_numbers n_numbers g_numbers o_numbers
    : list token) : list error :=
  foldl check_column []
        (columns b_numbers i_numbers n_numbers g_numbers o_numbers).

Definition validate_card (card_id : string)
    (b_numbers i_numbers n_numbers g_numbers o_numbers : list token)
  : bool * string :=
  let errors :=
    card_errors b_numbers i_numbers n_numbers g_numbers o_numbers in
  match errors with
  | _ :: _ =>
      (false, "Card " +:+ card_id +:+ ": " +:+ Str.join "; " (render <$> errors))
  | [] => (true, "Card " +:+ card_id +:+ ": Valid")
  end.

(** ** Table parser *)

(** The tuple [(card_id, b_list, i_list, n_list, g_list, o_list)]. *)
Record card : Type := Card {
  card_id : string;
  card_b : list token;
  card_i : list token;
  card_n : list token;
  card_g : list token;
  card_o : list token
}.

Definition lower (c : ascii) : ascii :=
  let n := nat_of_ascii c in
  if (65 <=? n)%nat && (n <=? 90)%nat then ascii_of_nat (n + 32) else c.

(** [re.match(r'^card\s', line, re.IGNORECASE)] *)
Definition is_header (line : string) : bool :=
  match line with
  | String c1 (String c2 (String c3 (String c4 (String c5 _)))) =>
      Ascii.eqb (lower c1) "c" && Ascii.eqb (lower c2) "a"
      && Ascii.eqb (lower c3) "r" && Ascii.eqb (lower c4) "d"
      && Str.is_space c5
  | _ => false
  end.

(** [parts[i]] *)
Definition index {A} (l : list A) (i : nat) : result A :=
  match l !! i with
  | Some x => Ok x
  | None => Raise IndexError
  end.

(** The loop state: [header_found] and [data_lines]. *)
Definition parse_state : Type := bool * list card.

(** The body of [for line in lines]. *)
Definition parse_line (st : parse_state) (line : string)
  : result parse_state :=
  let '(header_found, data_lines) := st in
  let line := Str.strip line in
  if Str.is_empty line then Ok (header_found, data_lines)
  else if is_header line then Ok (true, data_lines)
  else if header_found then
    let parts := Str.re_split Str.is_space line in
    if (length parts <? 6)%nat then Ok (header_found, data_lines)
    else
      card_id ← index parts 0;
      b_str ← index parts 1;
      i_str ← index parts 2;
      n_str ← index parts 3;
      g_str ← index parts 4;
      o_str ← index parts 5;
      b_nums ← parse_numbers b_str;
      i_nums ← parse_numbers i_str;
      n_nums ← parse_numbers n_str;
      g_nums ← parse_numbers g_str;
      o_nums ← parse_numbers o_str;
      Ok (header_found,
          data_lines ++ [Card card_id b_nums i_nums n_nums g_nums o_nums])
  else Ok (header_found, data_lines).

Definition parse_text_table (text : string) : result (list card) :=
  let lines := Str.splitlines (Str.strip text) in
  st ← for_each lines (false, []) parse_line;
  Ok (snd st).

(** ** Duplicate pass of [validate] *)

(** The tuple [(card_id, b, i, n, g, o, is_valid, message)]. *)
Record card_result : Type := CardResult {
  res_id : string;
  res_b : list token;
  res_i : list token;
  res_n : list token;
  res_g : list token;
  res_o : list token;
  res_valid : bool;
  res_msg : string
}.

Definition fingerprint : Type :=
  list token * list token * list token * list token * list token.

Definition fingerprint_of (r : card_result) : fingerprint :=
  (res_b r, res_i r, res_n r, res_g r, res_o r).

(** A [dict] iterates in insertion order: an association list with one
    entry per key, new keys at the end. *)
Definition fingerprint_dict : Type :=
  list (fingerprint * list (string * nat)).

(** [fingerprint_map.setdefault(fingerprint, []).append(x)] *)
Fixpoint setdefault_append (m : fingerprint_dict) (fp : fingerprint)
    (x : string * nat) : fingerprint_dict :=
  match m with
  | [] => [(fp, [x])]
  | (k, v) :: m' =>
      if decide (k = fp) then (k, v ++ [x]) :: m'
      else (k, v) :: setdefault_append m' fp x
  end.

(** The first loop over [enumerate(card_results)], from index [idx] on. *)
Fixpoint build_fingerprint_map (idx : nat) (card_results : list card_result)
    (fingerprint_map : fingerprint_dict) : fingerprint_dict :=
  match card_results with
  | [] => fingerprint_map
  | r :: rest =>
      build_fingerprint_map (S idx) rest
        (setdefault_append fingerprint_map (fingerprint_of r) (res_id r, idx))
  end.

(** [[cid for cid, _ in id_list if cid != card_id]] *)
Definition other_ids (id_list : list (string * nat)) (card_id : string)
  : list string :=
  fst <$> filter (λ x, fst x ≠ card_id) id_list.

Definition duplicate_msg (id_list : list (string * nat)) (card_id : string)
  : string :=
  "Duplicate of card(s) " +:+ Str.join ", " (other_ids id_list card_id).

(** The new tuple written to [card_results[idx]]. *)
Definition mark (r : card_result) (duplicate_msg : string) : card_result :=
  if res_valid r then
    CardResult (res_id r) (res_b r) (res_i r) (res_n r) (res_g r) (res_o r)
               false ("Valid but " +:+ duplicate_msg)
  else
    CardResult (res_id r) (res_b r) (res_i r) (res_n r) (res_g r) (res_o r)
               false (res_msg r +:+ "; " +:+ duplicate_msg).

(** The body of [for card_id, idx in id_list]. *)
Definition mark_member (id_list : list (string * nat))
    (card_results : list card_result) (member : string * nat)
  : result (list card_result) :=
  let '(card_id, idx) := member in
  let msg := duplicate_msg id_list card_id in
  r ← index card_results idx;
  Ok (<[idx := mark r msg]> card_results).

(** The body of [for fingerprint, id_list in fingerprint_map.items()]. *)
Definition mark_group (st : list card_result * list (list string))
    (item : fingerprint * list (string * nat))
  : result (list card_result * list (list string)) :=
  let '(card_results, duplicate_groups) := st in
  let '(_, id_list) := item in
  if (1 <? length id_list)%nat then
    let duplicate_groups := duplicate_groups ++ [fst <$> id_list] in
    card_results ← for_each id_list card_results (mark_member id_list);
    Ok (card_results, duplicate_groups)
  else Ok (card_results, duplicate_groups).

(** The per-card pass: [card_results.append((..., valid, msg))]. *)
Definition result_of_card (c : card) : card_result :=
  let '(valid, msg) :=
    validate_card (card_id c) (card_b c) (card_i c) (card_n c) (card_g c)
                  (card_o c) in
  CardResult (card_id c) (card_b c) (card_i c) (card_n c) (card_g c)
             (card_o c) valid msg.

(** The duplicate pass on the per-card results. *)
Definition mark_duplicates (card_results : list card_result)
  : result (list card_result * list (list string)) :=
  let fingerprint_map := build_fingerprint_map 0 card_results [] in
  for_each fingerprint_map (card_results, []) mark_group.

(** [validate] from the parsed cards to [card_results] and
    [duplicate_groups].  (The handler leaves with a notice when no card was
    parsed; on the empty list the two passes give two empty lists.) *)
Definition validate (cards : list card)
  : result (list card_result * list (list string)) :=
  mark_duplicates (result_of_card <$> cards).

(** The whole pipeline on a text. *)
Definition pipeline (text : string)
  : result (list card_result * list (list string)) :=
  cards ← parse_text_table text;
  validate cards.

(** ** Specification vocabulary *)

(** What the tokenizer is specified to return: the cell is cut at the runs
    of delimiters, and what lies between two runs is a fragment.
    [fragments_of delim s fs] reads [s] as delimiters, then a non-empty
    fragment free of delimiters that ends at a delimiter or at the end of
    [s], and so on. *)

Definition starts_with_delim (delim : ascii → bool) (s : string) : Prop :=
  match s with
  | EmptyString => True
  | String c _ => delim c = true
  end.

Inductive fragments_of (delim : ascii → bool) : string → list string → Prop :=
| frags_done ds :
    Str.all delim ds = true → fragments_of delim ds []
| frags_more ds f rest fs :
    Str.all delim ds = true →
    f ≠ "" →
    Str.all (λ c, negb (delim c)) f = true →
    starts_with_delim delim rest →
    fragments_of delim rest fs →
    fragments_of delim (ds +:+ f +:+ rest) (f :: fs).

Definition token_of_fragment (f : string) : token :=
  match Str.int f with
  | Ok n => Some n
  | Raise _ => None
  end.

(** The ten digits with their values, and the value of a character that
    is one of them. *)
Definition digit_values : list (ascii * Z) :=
  [("0", 0); ("1", 1); ("2", 2); ("3", 3); ("4", 4);
   ("5", 5); ("6", 6); ("7", 7); ("8", 8); ("9", 9)]%char.

Definition digit_of (c : ascii) : option Z :=
  snd <$> List.find (λ p, Ascii.eqb p.1 c) digit_values.

(** The number a list of digits writes in base 10, first digit first. *)
Fixpoint decimal (ds : list Z) : Z :=
  match ds with
  | [] => 0
  | d :: ds' => d * 10 ^ Z.of_nat (length ds') + decimal ds'
  end.

(** A base-10 signed integer: an optional sign, then decimal digits, at
    least one.  [plain_digits s ds]: [s] is the digits [ds] and nothing
    else; [decimal_numeral s z]: [s] writes [z]. *)
Inductive plain_digits : string → list Z → Prop :=
| plain_last c d :
    digit_of c = Some d → plain_digits (String c "") [d]
| plain_next c d s ds :
    digit_of c = Some d → plain_digits s ds → plain_digits (String c s) (d :: ds).

Inductive decimal_numeral : string → Z → Prop :=
| numeral_unsigned s ds : plain_digits s ds → decimal_numeral s (decimal ds)
| numeral_plus s ds :
    plain_digits s ds → decimal_numeral (String "+" s) (decimal ds)
| numeral_minus s ds :
    plain_digits s ds → decimal_numeral (String "-" s) (- decimal ds).

(** The same with one underscore allowed between two digits, which counts
    for nothing.  [grouped_digits s ds]: [s] is the digits [ds], at least
    one, with at most one underscore between two neighbours;
    [int_literal s z]: [s] writes [z] in this wider sense. *)
Inductive grouped_digits : string → list Z → Prop :=
| digits_last c d :
    digit_of c = Some d → grouped_digits (String c "") [d]
| digits_next c d s ds :
    digit_of c = Some d → grouped_digits s ds →
    grouped_digits (String c s) (d :: ds)
| digits_group c d s ds :
    digit_of c = Some d → grouped_digits s ds →
    grouped_digits (String c (String "_" s)) (d :: ds).

Inductive int_literal : string → Z → Prop :=
| literal_unsigned s ds : grouped_digits s ds → int_literal s (decimal ds)
| literal_plus s ds :
    grouped_digits s ds → int_literal (String "+" s) (decimal ds)
| literal_minus s ds :
    grouped_digits s ds → int_literal (String "-" s) (- decimal ds).

(** The free-space position: the third slot of the N column. *)
Definition is_center (c : column) (pos : nat) : Prop := c = ColN ∧ pos = 2%nat.

(** The errors one column yields when it is checked on its own. *)
Definition column_errors (col : column * list token * (Z * Z)) : list error :=
  check_column [] col.

(** The errors one token can cause at position [pos], given which values
    count as seen before it. *)
Definition token_explains (c : column) (low high : Z) (pos : nat)
    (tok : token) (seen_before : Z → Prop) (e : error) : Prop :=
  match tok with
  | None => e = ErrNonNumeric c
  | Some z =>
      if decide (is_center c pos) then z ≠ 0 ∧ e = ErrCenter c z
      else (¬ (low ≤ z ≤ high) ∧ e = ErrRange c z low high)
           ∨ (seen_before z ∧ e = ErrDuplicate c z)
  end.

(** [z] is in [seen], or stands before position [j] outside the free-space
    slot. *)
Definition earlier (c : column) (pos : nat) (numbers : list token)
    (seen : gset Z) (j : nat) (z : Z) : Prop :=
  z ∈ seen
  ∨ ∃ i, (i < j)%nat ∧ ¬ is_center c (pos + i) ∧ numbers !! i = Some (Some z).

(** Some token of [numbers] causes the error [e]. *)
Definition explains (c : column) (low high : Z) (pos : nat)
    (numbers : list token) (seen : gset Z) (e : error) : Prop :=
  ∃ j tok, numbers !! j = Some tok
           ∧ token_explains c low high (pos + j) tok
               (earlier c pos numbers seen j) e.

Global Instance is_center_dec c pos : Decision (is_center c pos).
Proof. unfold is_center. apply _. Defined.

(** A well-formed column: five tokens, all integers and pairwise distinct, in
    the range of the column, the free-space slot holding 0 instead. *)
Definition column_ok (c : column) (low high : Z) (numbers : list token)
  : Prop :=
  length numbers = 5%nat
  ∧ NoDup numbers
  ∧ ∀ pos tok, numbers !! pos = Some tok →
      ∃ z, tok = Some z
           ∧ if decide (is_center c pos) then z = 0 else low ≤ z ≤ high.

(** *** Table parser *)

(** The value [parse_numbers] returns for a cell. *)
Definition tokens_of (cell : string) : list token :=
  token_of_fragment
    <$> filter (λ p, p ≠ "") (Str.re_split is_cell_delim (Str.strip cell)).

(** The record made of the first six fields, if there are six. *)
Definition card_of_fields (fields : list string) : option card :=
  match fields with
  | f0 :: f1 :: f2 :: f3 :: f4 :: f5 :: _ =>
      Some (Card f0 (tokens_of f1) (tokens_of f2) (tokens_of f3)
                 (tokens_of f4) (tokens_of f5))
  | _ => None
  end.

(** The record a stripped line stands for: its fields are the pieces
    between the runs of white space. *)
Definition row_of_line (line : string) : option card :=
  card_of_fields (Str.re_split Str.is_space line).

(** The lines the parser looks at: stripped, blank ones left out. *)
Definition table_lines (text : string) : list string :=
  filter (λ l, l ≠ "") (Str.strip <$> Str.splitlines (Str.strip text)).

(** The rows of the lines that are not header lines. *)
Definition rows (lines : list string) : list card :=
  omap row_of_line (filter (λ l, is_header l = false) lines).

(** One step of the parser on a stripped, non-blank line. *)
Definition latch_step (st : parse_state) (l : string) : parse_state :=
  if is_header l then (true, st.2)
  else if st.1 then (st.1, st.2 ++ option_list (row_of_line l))
  else st.

(** *** Duplicate pass *)

(** The distinct elements of a list, each at its first occurrence. *)
Fixpoint first_occ {A} `{EqDecision A} (l : list A) : list A :=
  match l with
  | [] => []
  | x :: l' => x :: filter (λ y, y ≠ x) (first_occ l')
  end.

(** The pairs [(fingerprint, (card_id, idx))] the first loop of the
    duplicate pass goes through, from index [idx] on. *)
Fixpoint entries (idx : nat) (card_results : list card_result)
  : list (fingerprint * (string * nat)) :=
  match card_results with
  | [] => []
  | r :: rest => (fingerprint_of r, (res_id r, idx)) :: entries (S idx) rest
  end.

(** The values filed under the key [k]. *)
Definition filed {K V} `{EqDecision K} (kvs : list (K * V)) (k : K) : list V :=
  snd <$> filter (λ kv, kv.1 = k) kvs.

(** Grouping by key: one entry per key, keys in first-encounter order, the
    values of a key in the order of the list. *)
Definition grouped {K V} `{EqDecision K} (kvs : list (K * V))
  : list (K * list V) :=
  (λ k, (k, filed kvs k)) <$> first_occ (fst <$> kvs).

(** An update of [card_results]: an index and what happens to the tuple
    there. *)
Definition update : Type := nat * (card_result → card_result).

Definition apply_updates (card_results : list card_result)
    (us : list update) : list card_result :=
  foldl (λ l u, alter u.2 u.1 l) card_results us.

(** What the inner loop does for one member of [id_list]. *)
Definition member_update (id_list : list (string * nat))
    (member : string * nat) : update :=
  (member.2, λ r, mark r (duplicate_msg id_list member.1)).

(** What the outer loop does for one item of the dictionary. *)
Definition group_updates (item : fingerprint * list (string * nat))
  : list update :=
  if (1 <? length item.2)%nat then member_update item.2 <$> item.2 else [].

Definition group_report (item : fingerprint * list (string * nat))
  : list (list string) :=
  if (1 <? length item.2)%nat then [item.2.*1] else [].

(** The fingerprints shared by at least two cards, in first-encounter
    order. *)
Definition duplicate_fingerprints (rs : list card_result) : list fingerprint :=
  filter (λ fp, (1 < length (filter (λ r, fingerprint_of r = fp) rs))%nat)
         (first_occ (fingerprint_of <$> rs)).

(** ** Sample inputs *)

Definition scenario_a : string :=
  "Card ID B I N G O" +:+ String "010"
  "1 1,2,3,4,5 16,17,18,19,20 31,32,0,34,35 46,47,48,49,50 61,62,63,64,65".

Definition three_cards_text : string :=
  "Card ID B I N G O" +:+ String "010"
  "1 1,2,3,4,5 16,17,18,19,20 31,32,0,34,35 46,47,48,49,50 61,62,63,64,65"
  +:+ String "010"
  "1 1,2,3,4,5 16,17,18,19,20 31,32,0,34,35 46,47,48,49,50 61,62,63,64,65"
  +:+ String "010"
  "2 1,2,3,4,5 16,17,18,19,20 31,32,0,34,35 46,47,48,49,50 61,62,63,64,65".

Definition sample_b : list token := [Some 1; Some 2; Some 3; Some 4; Some 5].
Definition sample_i : list token :=
  [Some 16; Some 17; Some 18; Some 19; Some 20].
Definition sample_n : list token :=
  [Some 31; Some 32; Some 0; Some 34; Some 35].
Definition sample_g : list token :=
  [Some 46; Some 47; Some 48; Some 49; Some 50].
Definition sample_o : list token :=
  [Some 61; Some 62; Some 63; Some 64; Some 65].

(** An N column whose free-space slot holds the marker. *)
Definition marker_n : list token := [Some 31; Some 32; None; Some 34; Some 35].

(** An N column whose free-space slot repeats the first value. *)
Definition repeat_n : list token :=
  [Some 31; Some 32; Some 31; Some 34; Some 35].

(** A B column of four numbers. *)
Definition short_b : list token := [Some 1; Some 2; Some 3; Some 4].

Definition header_line : string := "Card ID B I N G O".

Definition data_line : string :=
  "1 1,2,3,4,5 16,17,18,19,20 31,32,0,34,35 46,47,48,49,50 61,62,63,64,65".

(** A data line whose identifier is written [Card 7]. *)
Definition card_7_line : string :=
  "Card 7 1,2,3,4,5 16,17,18,19,20 31,32,0,34,35 46,47,48,49,50 61,62,63,64,65".

Definition card_7_text : string :=
  header_line +:+ String "010" card_7_line.

(** The header line once more after the first row. *)
Definition two_headers_text : string :=
  header_line +:+ String "010" data_line +:+ String "010" header_line.

(** A data line with two fields too many. *)
Definition long_line : string := data_line +:+ " checked ok".

Definition long_text : string := header_line +:+ String "010" long_line.

(** Two results of equal content, the first valid, the second not. *)
Definition twin_results : list card_result :=
  [ CardResult "1" sample_b sample_i sample_n sample_g sample_o
               true "Card 1: Valid";
    CardResult "2" sample_b sample_i sample_n sample_g sample_o
               false "Card 2: checked by hand" ].

(** Scenario B: the free-space slot holds 33. *)
Definition scenario_b : string :=
  header_line +:+ String "010"
  "1 1,2,3,4,5 16,17,18,19,20 31,32,33,34,35 46,47,48,49,50 61,62,63,64,65".

(** Scenario C: the same row for the identifiers 1 and 2. *)
Definition scenario_c : string :=
  header_line +:+ String "010" data_line +:+ String "010"
  "2 1,2,3,4,5 16,17,18,19,20 31,32,0,34,35 46,47,48,49,50 61,62,63,64,65".

(** Scenario D: a B column of four numbers. *)
Definition scenario_d : string :=
  header_line +:+ String "010"
  "1 1,2,3,4 16,17,18,19,20 31,32,0,34,35 46,47,48,49,50 61,62,63,64,65".

(** ** The handler and further vocabulary *)

(** What the handler answers: a page with a flashed notice, or the page
    with the four values it passes to the template. *)
Inductive response : Type :=
| Flash (message : string)
| Render (invalid_msgs : list string) (valid_count : nat)
         (duplicate_groups : list (list string)) (original_text : string).

Definition no_card_notice : string :=
  "No valid card data found. Check that the header line starts with "
  +:+ String "034" ("card" +:+ String "034" ".").

(** The handler [validate] once [text_data] is chosen: parse, leave with
    the notice when no card was parsed, run the two passes, split the
    messages by the final flag. *)
Definition validate_text (text_data : string) : result response :=
  cards ← parse_text_table text_data;
  match cards with
  | [] => Ok (Flash no_card_notice)
  | _ :: _ =>
      '(card_results, duplicate_groups) ← validate cards;
      let valid_msgs :=
        res_msg <$> filter (λ r, res_valid r = true) card_results in
      let invalid_msgs :=
        res_msg <$> filter (λ r, res_valid r ≠ true) card_results in
      Ok (Render invalid_msgs (length valid_msgs) duplicate_groups text_data)
  end.

(** The content of a card: its five columns. *)
Definition card_content (c : card) : fingerprint :=
  (card_b c, card_i c, card_n c, card_g c, card_o c).

(** The verdict of [validate_card] on a card. *)
Definition card_valid (c : card) : bool :=
  (validate_card (card_id c) (card_b c) (card_i c) (card_n c) (card_g c)
                 (card_o c)).1.

(** The place of a column in the table. *)
Definition col_rank (c : column) : nat :=
  match c with
  | ColB => 0 | ColI => 1 | ColN => 2 | ColG => 3 | ColO => 4
  end.

(** ** Further sample inputs *)

Definition sample_card (card_id : string) : card :=
  Card card_id sample_b sample_i sample_n sample_g sample_o.

(** The twin results and a third one of another content. *)
Definition three_results : list card_result :=
  twin_results
  ++ [CardResult "3" short_b sample_i sample_n sample_g sample_o
                 false "Card 3: B: expected 5 numbers, got 4"].

Definition twin_results_marked : list card_result :=
  [ CardResult "1" sample_b sample_i sample_n sample_g sample_o
               false "Valid but Duplicate of card(s) 2";
    CardResult "2" sample_b sample_i sample_n sample_g sample_o
               false "Card 2: checked by hand; Duplicate of card(s) 1" ].


(** Six cards in two groups of equal content, each with the identifiers
    shared by its first two cards; the cards of the second group have four
    numbers in their B column. *)
Definition six_cards_text : string :=
  three_cards_text +:+ String "010"
  "3 1,2,3,4 16,17,18,19,20 31,32,0,34,35 46,47,48,49,50 61,62,63,64,65"
  +:+ String "010"
  "3 1,2,3,4 16,17,18,19,20 31,32,0,34,35 46,47,48,49,50 61,62,63,64,65"
  +:+ String "010"
  "4 1,2,3,4 16,17,18,19,20 31,32,0,34,35 46,47,48,49,50 61,62,63,64,65".
(** * Properties *)

(** ** Strings *)

Section string_facts.
Implicit Types (s t u : string) (p : ascii → bool) (c : ascii).

Lemma str_app_cons c s t : String c s +:+ t = String c (s +:+ t).
Proof. reflexivity. Qed.

Lemma str_app_nil_l s : "" +:+ s = s.
Proof. reflexivity. Qed.

Lemma str_app_nil_r s : s +:+ "" = s.
Proof. induction s as [|c s IH]; [done | by rewrite str_app_cons, IH]. Qed.

Lemma str_app_assoc s t u : (s +:+ t) +:+ u = s +:+ t +:+ u.
Proof. induction s as [|c s IH]; [done | by rewrite !str_app_cons, IH]. Qed.

Lemma all_app p s t : Str.all p (s +:+ t) = Str.all p s && Str.all p t.
Proof.
  induction s as [|c s IH]; [done|].
  rewrite str_app_cons. simpl. by rewrite IH, andb_assoc.
Qed.

Lemma is_empty_true s : Str.is_empty s = true ↔ s = "".
Proof. by destruct s. Qed.

Lemma eqb_empty s : String.eqb s "" = Str.is_empty s.
Proof. by destruct s. Qed.

Lemma lstrip_split s :
  ∃ w, s = w +:+ Str.lstrip s ∧ Str.all Str.is_space w = true.
Proof.
  induction s as [|c s (w & Hs & Hw)]; simpl.
  - by exists "".
  - destruct (Str.is_space c) eqn:Hc.
    + exists (String c w). rewrite str_app_cons, <- Hs. simpl. by rewrite Hc, Hw.
    + by exists "".
Qed.

Lemma rstrip_split s :
  ∃ w, s = Str.rstrip s +:+ w ∧ Str.all Str.is_space w = true.
Proof.
  induction s as [|c s (w & Hs & Hw)]; simpl.
  - by exists "".
  - destruct (Str.is_space c && Str.is_empty (Str.rstrip s)) eqn:Hc.
    + apply andb_true_iff in Hc as [Hc He].
      apply is_empty_true in He. rewrite He, str_app_nil_l in Hs. subst w.
      exists (String c s). simpl. by rewrite Hc, Hw.
    + exists w. by rewrite str_app_cons, <- Hs.
Qed.

Lemma strip_split s :
  ∃ w1 w2, s = w1 +:+ Str.strip s +:+ w2
           ∧ Str.all Str.is_space w1 = true ∧ Str.all Str.is_space w2 = true.
Proof.
  destruct (lstrip_split s) as (w1 & H1 & Hw1).
  destruct (rstrip_split (Str.lstrip s)) as (w2 & H2 & Hw2).
  exists w1, w2. unfold Str.strip. by rewrite <- H2, <- H1.
Qed.
(** [strip] leaves a string without white space as it is. *)
Lemma strip_plain s :
  Str.all (λ c, negb (Str.is_space c)) s = true → Str.strip s = s.
Proof.
  intros Hs. unfold Str.strip.
  assert (Str.lstrip s = s) as ->.
  { destruct s as [|c s]; [done|]. simpl in *.
    by apply andb_true_iff in Hs as [->%negb_true_iff _]. }
  induction s as [|c s IH]; [done|]. simpl in *.
  apply andb_true_iff in Hs as [->%negb_true_iff Hs]. simpl. by rewrite IH.
Qed.
End string_facts.

(** ** Tokenizer *)

Example re_split_ex :
  Str.re_split is_cell_delim ",1, 2,," = [""; "1"; "2"; ""].
Proof. reflexivity. Qed.

Example splitlines_ex :
  Str.splitlines ("a" +:+ String "013" (String "010" "") +:+ String "010" "b"
                  +:+ String "010" "") = ["a"; ""; "b"].
Proof. reflexivity. Qed.

Example int_ex :
  Str.int "-12" = Ok (-12) ∧ Str.int "+7" = Ok 7 ∧ Str.int "007" = Ok 7
  ∧ Str.int "1_000" = Ok 1000 ∧ Str.int "12a" = Raise ValueError
  ∧ Str.int "" = Raise ValueError ∧ Str.int "-" = Raise ValueError
  ∧ Str.int "3.5" = Raise ValueError.
Proof. by vm_compute. Qed.

Example parse_numbers_ex :
  parse_numbers " 15,2,, x7 -3,+4,1_0,_1 " =
  Ok [Some 15; Some 2; None; Some (-3); Some 4; Some 10; None].
Proof. vm_compute. reflexivity. Qed.

Section fragments.
Variable delim : ascii → bool.
Implicit Types (s w f cur : string) (fs : list string).

Lemma all_delim_starts w :
  Str.all delim w = true → starts_with_delim delim w.
Proof. destruct w as [|c w]; simpl; [done|]. by intros [? _]%andb_true_iff. Qed.

Lemma fragments_prepend w s fs :
  Str.all delim w = true →
  fragments_of delim s fs → fragments_of delim (w +:+ s) fs.
Proof.
  intros Hw [ds Hds | ds f rest fs' Hds Hf Hnf Hrest Hfs].
  - constructor. by rewrite all_app, Hw, Hds.
  - rewrite <- str_app_assoc. constructor; try done.
    by rewrite all_app, Hw, Hds.
Qed.

Lemma fragments_append w s fs :
  Str.all delim w = true →
  fragments_of delim s fs → fragments_of delim (s +:+ w) fs.
Proof.
  intros Hw. induction 1 as [ds Hds | ds f rest fs' Hds Hf Hnf Hrest Hfs IH].
  - constructor. by rewrite all_app, Hds, Hw.
  - rewrite !str_app_assoc. constructor; try done.
    destruct rest; [by apply all_delim_starts | done].
Qed.

Lemma fragments_all_delim s fs :
  fragments_of delim s fs → Str.all delim s = true → fs = [].
Proof.
  intros [ds Hds | ds f rest fs' Hds Hf Hnf Hrest Hfs]; [done|].
  rewrite !all_app. intros [_ [Hd _]%andb_true_iff]%andb_true_iff.
  destruct f as [|c f]; [done|]. simpl in *.
  apply andb_true_iff in Hd as [Hd _], Hnf as [Hnf _].
  rewrite Hd in Hnf. done.
Qed.

Lemma span_unique (p : ascii → bool) (a a' b b' : string) :
  Str.all p a = true → Str.all p a' = true →
  starts_with_delim (λ c, negb (p c)) b →
  starts_with_delim (λ c, negb (p c)) b' →
  a +:+ b = a' +:+ b' → a = a' ∧ b = b'.
Proof.
  revert a'. induction a as [|c a IH]; intros [|c' a'] Ha Ha' Hb Hb' Heq;
    rewrite ?str_app_cons, ?str_app_nil_l in Heq; simpl in *.
  - done.
  - subst b. simpl in Hb. apply andb_true_iff in Ha' as [Hc _].
    by rewrite Hc in Hb.
  - subst b'. simpl in Hb'. apply andb_true_iff in Ha as [Hc _].
    by rewrite Hc in Hb'.
  - injection Heq as -> Heq.
    apply andb_true_iff in Ha as [_ Ha], Ha' as [_ Ha'].
    destruct (IH a' Ha Ha' Hb Hb' Heq) as [-> ->]. done.
Qed.

(** A string has one list of fragments. *)
Lemma fragments_of_unique s fs fs' :
  fragments_of delim s fs → fragments_of delim s fs' → fs = fs'.
Proof.
  intros H. revert fs'.
  induction H as [ds Hds | ds f rest fs Hds Hf Hnf Hrest Hfs IH]; intros fs' H'.
  - symmetry. by eapply fragments_all_delim.
  - assert (fragments_of delim (ds +:+ f +:+ rest) (f :: fs)) as Hthis
      by by constructor.
    inversion H' as [ds' Hds' | ds' f' rest' fs1 Hds' Hf' Hnf' Hrest' Hfs' Heq];
      subst.
    { by apply (fragments_all_delim _ _ Hthis) in Hds'. }
    assert (∀ g r, g ≠ "" → Str.all (λ c, negb (delim c)) g = true →
              starts_with_delim (λ c, negb (delim c)) (g +:+ r)) as Hhead.
    { intros [|c g] r Hg Hall; [done|]. simpl in *.
      by apply andb_true_iff in Hall as [-> _]. }
    assert (∀ r, starts_with_delim delim r →
              starts_with_delim (λ c, negb (negb (delim c))) r) as Htail.
    { intros [|c r]; simpl; [done|]. by intros ->. }
    destruct (span_unique delim ds' ds (f' +:+ rest') (f +:+ rest))
      as [-> Heq']; auto.
    destruct (span_unique (λ c, negb (delim c)) f' f rest' rest)
      as [-> ->]; auto.
    f_equal. by apply IH.
Qed.

Lemma re_split_go_fragments s :
  (∀ cur, cur ≠ "" → Str.all (λ c, negb (delim c)) cur = true →
     fragments_of delim (cur +:+ s)
       (filter (λ p, p ≠ "") (Str.re_split_go delim false cur s)))
  ∧ fragments_of delim s
      (filter (λ p, p ≠ "") (Str.re_split_go delim true "" s))
  ∧ filter (λ p, p ≠ "") (Str.re_split_go delim false "" s)
    = filter (λ p, p ≠ "") (Str.re_split_go delim true "" s).
Proof.
  induction s as [|c s (IH1 & IH2 & IH3)]; simpl.
  - split_and!; [|by constructor|done].
    intros cur Hcur Hall. rewrite filter_cons_True by done.
    apply (frags_more delim "" cur "" []); try done. by constructor.
  - destruct (delim c) eqn:Hc.
    + assert (fragments_of delim (String c s)
                (filter (λ p, p ≠ "") (Str.re_split_go delim true "" s)))
        as Hcs.
      { apply (fragments_prepend (String c "")); [|done]. simpl. by rewrite Hc. }
      split_and!; [|done|by rewrite filter_cons_False by naive_solver].
      intros cur Hcur Hall. rewrite filter_cons_True by done.
      by apply (frags_more delim "" cur (String c s)).
    + assert (Str.all (λ c, negb (delim c)) (String c "") = true) as Hone.
      { simpl. by rewrite Hc. }
      split_and!; [|by apply (IH1 (String c ""))|done].
      intros cur Hcur Hall.
      replace (cur +:+ String c s) with ((cur +:+ String c "") +:+ s)
        by by rewrite str_app_assoc.
      apply IH1; [by destruct cur | by rewrite all_app, Hall, Hone].
Qed.

Lemma re_split_fragments s :
  fragments_of delim s (filter (λ p, p ≠ "") (Str.re_split delim s)).
Proof.
  unfold Str.re_split.
  destruct (re_split_go_fragments s) as (_ & H & ->). done.
Qed.
End fragments.

Lemma all_impl (p q : ascii → bool) s :
  (∀ c, p c = true → q c = true) → Str.all p s = true → Str.all q s = true.
Proof.
  intros Hpq. induction s as [|c s IH]; simpl; [done|].
  intros [? ?]%andb_true_iff. rewrite Hpq, IH; done.
Qed.

Lemma space_is_cell_delim c : Str.is_space c = true → is_cell_delim c = true.
Proof. unfold is_cell_delim. intros ->. apply orb_true_r. Qed.

Lemma int_raises s e : Str.int s = Raise e → e = ValueError.
Proof.
  unfold Str.int.
  destruct (match Str.strip s with
            | String "+"%char r => (1, r)
            | String "-"%char r => (-1, r)
            | _ => (1, Str.strip s)
            end) as [sign body].
  destruct (Str.int_digits 0 false body); congruence.
Qed.

Lemma parse_numbers_step_spec numbers p :
  parse_numbers_step numbers p =
  Ok (if decide (p ≠ "") then numbers ++ [token_of_fragment p] else numbers).
Proof.
  unfold parse_numbers_step, token_of_fragment.
  destruct p as [|c p]; [done|].
  rewrite decide_True by done.
  change (String.eqb (String c p) "") with false.
  destruct (Str.int (String c p)) as [n|e] eqn:Hint; [done|].
  by rewrite (int_raises _ _ Hint).
Qed.

Lemma parse_numbers_loop parts numbers :
  for_each parts numbers parse_numbers_step =
  Ok (numbers ++ (token_of_fragment <$> filter (λ p, p ≠ "") parts)).
Proof.
  revert numbers. induction parts as [|p parts IH]; intros numbers.
  - by rewrite app_nil_r.
  - cbn [for_each]. rewrite parse_numbers_step_spec. cbn [mbind result_bind].
    rewrite IH, filter_cons. destruct (decide (p ≠ "")); [|done].
    by rewrite fmap_cons, <- app_assoc.
Qed.

(** ** Reading an integer *)

Section int_facts.
Implicit Types (s : string) (c : ascii) (ds : list Z) (acc v z : Z).

Lemma digit_of_spec c :
  digit_of c
  = if Str.is_digit c then Some (Str.digit_val c) else None.
Proof. destruct c as [[] [] [] [] [] [] [] []]; by vm_compute. Qed.

Lemma grouped_digits_inv c s ds :
  grouped_digits (String c s) ds ↔
  ∃ d ds', digit_of c = Some d ∧ ds = d :: ds'
           ∧ ((s = "" ∧ ds' = [])
              ∨ grouped_digits s ds'
              ∨ ∃ s', s = String "_" s' ∧ grouped_digits s' ds').
Proof.
  split.
  - inversion 1; subst; eexists _, _; (split; [done|]); (split; [done|]);
      eauto.
  - intros (d & ds' & Hd & -> & [[-> ->] | [Hs | (s' & -> & Hs)]]);
      by constructor.
Qed.

Lemma decimal_cons acc d ds :
  (10 * acc + d) * 10 ^ Z.of_nat (length ds) + decimal ds
  = acc * 10 ^ Z.of_nat (length (d :: ds)) + decimal (d :: ds).
Proof.
  cbn [length decimal]. rewrite Nat2Z.inj_succ, Z.pow_succ_r by lia. ring.
Qed.

Lemma int_digits_spec s acc v :
  (Str.int_digits acc false s = Some v
   ↔ ∃ ds, grouped_digits s ds
           ∧ v = acc * 10 ^ Z.of_nat (length ds) + decimal ds)
  ∧ (Str.int_digits acc true s = Some v
     ↔ (s = "" ∧ v = acc)
       ∨ (∃ ds, grouped_digits s ds
                ∧ v = acc * 10 ^ Z.of_nat (length ds) + decimal ds)
       ∨ (∃ s' ds, s = String "_" s' ∧ grouped_digits s' ds
                   ∧ v = acc * 10 ^ Z.of_nat (length ds) + decimal ds)).
Proof.
  revert acc v. induction s as [|c s IH]; intros acc v.
  - simpl. split.
    + split; [done|]. intros (ds & Hds & _). inversion Hds.
    + split; [intros [= <-]; by left|].
      intros [[_ ->] | [(ds & Hds & _) | (s' & ds & ? & _)]];
        [done|inversion Hds|done].
  - assert (∀ prev w,
              Str.is_digit c = true →
              Str.int_digits acc prev (String c s) = Some w
              ↔ ∃ ds, grouped_digits (String c s) ds
                      ∧ w = acc * 10 ^ Z.of_nat (length ds) + decimal ds)
      as Hdigit.
    { intros prev w Hc. cbn [Str.int_digits]. rewrite Hc.
      rewrite (proj2 (IH _ _)). split.
      - intros [[-> ->] | [(ds & Hds & ->) | (s' & ds & -> & Hds & ->)]].
        + exists [Str.digit_val c]. split.
          * constructor. by rewrite digit_of_spec, Hc.
          * simpl. lia.
        + exists (Str.digit_val c :: ds). split.
          * constructor; [by rewrite digit_of_spec, Hc|done].
          * apply decimal_cons.
        + exists (Str.digit_val c :: ds). split.
          * constructor; [by rewrite digit_of_spec, Hc|done].
          * apply decimal_cons.
      - intros (ds0 & Hds & ->).
        apply grouped_digits_inv in Hds as (d & ds & Hd & -> & Hrest).
        rewrite digit_of_spec, Hc in Hd. injection Hd as <-.
        rewrite <- decimal_cons.
        destruct Hrest as [[-> ->] | [Hds | (s' & -> & Hds)]].
        + left. split; [done|]. simpl. lia.
        + right. left. by exists ds.
        + right. right. by exists s', ds. }
    assert (Str.is_digit c = false → ∀ ds, ¬ grouped_digits (String c s) ds)
      as Hnone.
    { intros Hc ds (d & ? & Hd & _)%grouped_digits_inv.
      by rewrite digit_of_spec, Hc in Hd. }
    destruct (Str.is_digit c) eqn:Hc.
    + split; [by apply Hdigit|]. rewrite (Hdigit true v eq_refl). split.
      * intros ?. by right; left.
      * intros [[? _] | [? | (s' & ds & [= -> _] & _)]]; done.
    + cbn [Str.int_digits]. rewrite Hc. split.
      * rewrite andb_false_r. split; [done|].
        intros (ds & Hds & _). by apply Hnone in Hds.
      * rewrite andb_true_r. destruct (Ascii.eqb_spec c "_") as [->|Hne].
        -- rewrite (proj1 (IH _ _)). split.
           ++ intros (ds & Hds & ->). right. right. by exists s, ds.
           ++ intros [[? _] | [(ds & Hds & _) | (s' & ds & [= <-] & Hds & ->)]];
                [done|by apply Hnone in Hds|by exists ds].
        -- split; [done|].
           intros [[? _] | [(ds & Hds & _) | (s' & ds & [= ? _] & _)]];
             [done|by apply Hnone in Hds|done].
Qed.

Lemma int_sign_default c s :
  c ≠ "+"%char → c ≠ "-"%char →
  match String c s with
  | String "+"%char r => (1, r)
  | String "-"%char r => (-1, r)
  | _ => (1, String c s)
  end = (1, String c s).
Proof. destruct c as [[] [] [] [] [] [] [] []]; intros; done. Qed.

Lemma sign_not_digits c s ds :
  c = "+"%char ∨ c = "-"%char → ¬ grouped_digits (String c s) ds.
Proof. by intros [-> | ->] (d & ? & Hd & _)%grouped_digits_inv. Qed.

Lemma int_literal_inv s z :
  int_literal s z ↔
  (∃ ds, grouped_digits s ds ∧ z = decimal ds)
  ∨ (∃ r ds, s = String "+" r ∧ grouped_digits r ds ∧ z = decimal ds)
  ∨ (∃ r ds, s = String "-" r ∧ grouped_digits r ds ∧ z = - decimal ds).
Proof.
  split.
  - inversion 1; subst; eauto 10.
  - intros [(ds & ? & ->) | [(r & ds & -> & ? & ->) | (r & ds & -> & ? & ->)]];
      by constructor.
Qed.

(** On a string without white space [int] returns [z] exactly when the
    string writes [z]. *)
Lemma int_spec s z :
  Str.all (λ c, negb (Str.is_space c)) s = true →
  Str.int s = Ok z ↔ int_literal s z.
Proof.
  intros Hs. unfold Str.int. rewrite strip_plain by done.
  rewrite int_literal_inv. destruct s as [|c s].
  - simpl. split; [done|].
    intros [(ds & Hds & _) | [(? & ? & ? & _) | (? & ? & ? & _)]];
      [inversion Hds|done|done].
  - destruct (decide (c = "+"%char)) as [->|Hplus];
      [|destruct (decide (c = "-"%char)) as [->|Hminus]].
    + destruct (Str.int_digits 0 false s) as [v|] eqn:Hv.
      * apply (proj1 (int_digits_spec _ _ _)) in Hv as (ds & Hds & ->).
        split.
        -- intros [= <-]. right. left. exists s, ds. split_and!; [done|done|lia].
        -- intros [(ds' & Hds' & _) | [(r & ds' & [= <-] & Hds' & ->)
                                      | (? & ? & [=] & _)]].
           ++ by apply sign_not_digits in Hds'; [|left].
           ++ f_equal.
              assert (Str.int_digits 0 false s
                      = Some (0 * 10 ^ Z.of_nat (length ds') + decimal ds'))
                as Hv' by (apply int_digits_spec; by exists ds').
              assert (Str.int_digits 0 false s
                      = Some (0 * 10 ^ Z.of_nat (length ds) + decimal ds))
                as Hv'' by (apply int_digits_spec; by exists ds).
              rewrite Hv' in Hv''. injection Hv'' as Heq. lia.
      * split; [done|].
        intros [(ds' & Hds' & _) | [(r & ds' & [= <-] & Hds' & ->)
                                   | (? & ? & [=] & _)]].
        -- by apply sign_not_digits in Hds'; [|left].
        -- assert (Str.int_digits 0 false s
                   = Some (0 * 10 ^ Z.of_nat (length ds') + decimal ds'))
             as Hv' by (apply int_digits_spec; by exists ds').
           congruence.
    + destruct (Str.int_digits 0 false s) as [v|] eqn:Hv.
      * apply (proj1 (int_digits_spec _ _ _)) in Hv as (ds & Hds & ->).
        split.
        -- intros [= <-]. right. right. exists s, ds.
           split_and!; [done|done|lia].
        -- intros [(ds' & Hds' & _) | [(? & ? & [=] & _)
                                      | (r & ds' & [= <-] & Hds' & ->)]].
           ++ by apply sign_not_digits in Hds'; [|right].
           ++ f_equal.
              assert (Str.int_digits 0 false s
                      = Some (0 * 10 ^ Z.of_nat (length ds') + decimal ds'))
                as Hv' by (apply int_digits_spec; by exists ds').
              assert (Str.int_digits 0 false s
                      = Some (0 * 10 ^ Z.of_nat (length ds) + decimal ds))
                as Hv'' by (apply int_digits_spec; by exists ds).
              rewrite Hv' in Hv''. injection Hv'' as Heq. lia.
      * split; [done|].
        intros [(ds' & Hds' & _) | [(? & ? & [=] & _)
                                   | (r & ds' & [= <-] & Hds' & ->)]].
        -- by apply sign_not_digits in Hds'; [|right].
        -- assert (Str.int_digits 0 false s
                   = Some (0 * 10 ^ Z.of_nat (length ds') + decimal ds'))
             as Hv' by (apply int_digits_spec; by exists ds').
           congruence.
    + rewrite int_sign_default by done.
      destruct (Str.int_digits 0 false (String c s)) as [v|] eqn:Hv.
      * apply (proj1 (int_digits_spec _ _ _)) in Hv as (ds & Hds & ->).
        split.
        -- intros [= <-]. left. exists ds. split; [done|]. lia.
        -- intros [(ds' & Hds' & ->) | [(? & ? & [= ? _] & _)
                                       | (? & ? & [= ? _] & _)]];
             [|done|done].
           f_equal.
           assert (Str.int_digits 0 false (String c s)
                   = Some (0 * 10 ^ Z.of_nat (length ds') + decimal ds'))
             as Hv' by (apply int_digits_spec; by exists ds').
           assert (Str.int_digits 0 false (String c s)
                   = Some (0 * 10 ^ Z.of_nat (length ds) + decimal ds))
             as Hv'' by (apply int_digits_spec; by exists ds).
           rewrite Hv' in Hv''. injection Hv'' as Heq. lia.
      * split; [done|].
        intros [(ds' & Hds' & _) | [(? & ? & [= ? _] & _)
                                   | (? & ? & [= ? _] & _)]];
          [|done|done].
        assert (Str.int_digits 0 false (String c s)
                = Some (0 * 10 ^ Z.of_nat (length ds') + decimal ds'))
          as Hv' by (apply int_digits_spec; by exists ds').
        congruence.
Qed.
End int_facts.

Lemma fragments_plain delim s fs :
  fragments_of delim s fs →
  Forall (λ f, f ≠ "" ∧ Str.all (λ c, negb (delim c)) f = true) fs.
Proof. induction 1; by constructor. Qed.

Lemma plain_digits_grouped s ds : plain_digits s ds → grouped_digits s ds.
Proof. induction 1; by constructor. Qed.

Lemma decimal_numeral_literal s z : decimal_numeral s z → int_literal s z.
Proof. destruct 1; constructor; by apply plain_digits_grouped. Qed.

Lemma fragment_token f :
  Str.all (λ c, negb (is_cell_delim c)) f = true →
  match token_of_fragment f with
  | Some z => int_literal f z
  | None => ∀ z, ¬ int_literal f z
  end
  ∧ ∀ z, decimal_numeral f z → token_of_fragment f = Some z.
Proof.
  intros Hf.
  assert (Str.all (λ c, negb (Str.is_space c)) f = true) as Hplain.
  { revert Hf. apply all_impl. intros c. unfold is_cell_delim.
    rewrite !negb_true_iff. by intros [_ ?]%orb_false_iff. }
  unfold token_of_fragment. split.
  - destruct (Str.int f) as [n|e] eqn:Hint.
    + by apply int_spec.
    + intros z Hz. apply int_spec in Hz; [|done]. congruence.
  - intros z Hz%decimal_numeral_literal. apply int_spec in Hz; [|done].
    by rewrite Hz.
Qed.

(** C7, as the code has it: [parse_numbers] never raises.  The cell is cut
    at the runs of commas and white space into its fragments, and the list
    returned has one token for each fragment, in their order.  A fragment
    that writes an integer in base 10, with an optional sign, yields that
    integer; so does one with single underscores between its digits, which
    count for nothing; every other fragment yields the marker.  This is
    stated of the fragments of at most 4300 characters, which no limit of
    the interpreter on the digits of a conversion touches.  A cell made of
    delimiters only has no fragment and yields the empty list. *)
Theorem parse_numbers_total cell :
  ∃ frags tokens,
    parse_numbers cell = Ok tokens
    ∧ fragments_of is_cell_delim cell frags
    ∧ Forall2 (λ f tok,
                 (String.length f ≤ 4300)%nat →
                 match tok with
                 | Some z => int_literal f z
                 | None => ∀ z, ¬ int_literal f z
                 end
                 ∧ ∀ z, decimal_numeral f z → tok = Some z) frags tokens
    ∧ (Str.all is_cell_delim cell = true → tokens = []).
Proof.
  destruct (strip_split cell) as (w1 & w2 & Hcell & Hw1 & Hw2).
  apply (all_impl _ _ _ space_is_cell_delim) in Hw1, Hw2.
  unfold parse_numbers. rewrite eqb_empty.
  destruct (Str.is_empty cell || Str.is_empty (Str.strip cell)) eqn:Hguard.
  - exists [], []. split_and!; [done| |done|done].
    constructor. apply orb_true_iff in Hguard as [He|He]; apply is_empty_true in He.
    + by rewrite He.
    + rewrite Hcell, He, !all_app, Hw1, Hw2. done.
  - set (frags := filter (λ p, p ≠ "")
                    (Str.re_split is_cell_delim (Str.strip cell))).
    assert (fragments_of is_cell_delim cell frags) as Hfr.
    { rewrite Hcell at 1. apply fragments_prepend; [done|].
      apply fragments_append; [done|]. apply re_split_fragments. }
    exists frags, (token_of_fragment <$> frags).
    split_and!; [by rewrite parse_numbers_loop|done| |].
    + apply Forall2_fmap_r, Forall_Forall2_diag.
      eapply Forall_impl; [by eapply fragments_plain|].
      intros f [_ Hf] _. by apply fragment_token.
    + intros Hall. by rewrite (fragments_all_delim _ _ _ Hfr Hall).
Qed.

(** ** Card validator *)

Section walk_facts.
Variables (c : column) (low high : Z).
Implicit Types (pos : nat) (numbers : list token) (errors : list error)
  (seen : gset Z) (tok : token) (e : error).

Lemma center_test pos :
  bool_decide (c = ColN) && (pos =? 2)%nat = bool_decide (is_center c pos).
Proof.
  unfold is_center. destruct (Nat.eqb_spec pos 2), (decide (c = ColN));
    rewrite ?bool_decide_true, ?bool_decide_false by tauto; simpl; try done.
  all: by rewrite ?bool_decide_true, ?bool_decide_false by tauto.
Qed.

Lemma check_token_app errors seen pos tok :
  check_token c low high (errors, seen) pos tok =
  (errors ++ (check_token c low high ([], seen) pos tok).1,
   (check_token c low high ([], seen) pos tok).2).
Proof.
  unfold check_token. destruct tok as [z|]; [|done].
  repeat case_match; simpl; rewrite ?app_nil_r, <- ?app_assoc; done.
Qed.

Lemma walk_app numbers pos errors seen :
  walk c low high pos numbers (errors, seen) =
  (errors ++ (walk c low high pos numbers ([], seen)).1,
   (walk c low high pos numbers ([], seen)).2).
Proof.
  revert pos errors seen.
  induction numbers as [|tok numbers IH]; intros pos errors seen; cbn [walk].
  - by rewrite app_nil_r.
  - rewrite check_token_app.
    destruct (check_token c low high ([], seen) pos tok) as [e1 s1]; simpl.
    rewrite (IH _ (errors ++ e1)), (IH _ e1). simpl. by rewrite app_assoc.
Qed.

Lemma check_token_seen errors seen pos tok z :
  z ∈ (check_token c low high (errors, seen) pos tok).2
  ↔ z ∈ seen ∨ (tok = Some z ∧ ¬ is_center c pos).
Proof.
  unfold check_token. destruct tok as [z'|]; [|naive_solver].
  rewrite center_test. case_bool_decide as Hc.
  - case_bool_decide; naive_solver.
  - simpl. rewrite elem_of_union, elem_of_singleton. naive_solver.
Qed.

Lemma check_token_errors errors seen pos tok e :
  e ∈ (check_token c low high (errors, seen) pos tok).1
  ↔ e ∈ errors ∨ token_explains c low high pos tok (λ z, z ∈ seen) e.
Proof.
  unfold check_token, token_explains. destruct tok as [z|].
  - rewrite center_test. case_bool_decide as Hc.
    + rewrite decide_True by done.
      case_bool_decide; simpl; rewrite ?elem_of_app, ?list_elem_of_singleton;
        naive_solver.
    + rewrite decide_False by done.
      destruct (low <=? z) eqn:Hl, (z <=? high) eqn:Hh;
        case_bool_decide; simpl;
        rewrite ?elem_of_app, ?list_elem_of_singleton;
        try apply Z.leb_le in Hl; try apply Z.leb_le in Hh;
        try apply Z.leb_gt in Hl; try apply Z.leb_gt in Hh;
        naive_solver lia.
  - simpl. rewrite elem_of_app, list_elem_of_singleton. done.
Qed.
End walk_facts.

Section walk_spec.
Variables (c : column) (low high : Z).
Implicit Types (pos : nat) (numbers : list token) (errors : list error)
  (seen : gset Z) (tok : token) (e : error).

Lemma token_explains_mono pos tok (P Q : Z → Prop) e :
  (∀ z, P z → Q z) →
  token_explains c low high pos tok P e →
  token_explains c low high pos tok Q e.
Proof.
  intros HPQ. unfold token_explains. destruct tok as [z|]; [|done].
  case_decide; naive_solver.
Qed.

Lemma earlier_cons pos tok numbers errors seen j z :
  earlier c pos (tok :: numbers) seen (S j) z
  ↔ earlier c (S pos) numbers
      (check_token c low high (errors, seen) pos tok).2 j z.
Proof.
  unfold earlier. rewrite check_token_seen. split.
  - intros [Hz | (i & Hi & Hc & Hl)]; [by auto|].
    destruct i as [|i]; simpl in Hl.
    + rewrite Nat.add_0_r in Hc. left. right. naive_solver.
    + right. exists i. rewrite Nat.add_succ_r in Hc.
      split_and!; [lia|done|done].
  - intros [[Hz | [-> Hc]] | (i & Hi & Hc & Hl)].
    + by left.
    + right. exists 0%nat. rewrite Nat.add_0_r. split_and!; [lia|done|done].
    + right. exists (S i). rewrite Nat.add_succ_r.
      split_and!; [lia|done|done].
Qed.

Lemma explains_cons pos tok numbers errors seen e :
  explains c low high pos (tok :: numbers) seen e
  ↔ token_explains c low high pos tok (λ z, z ∈ seen) e
    ∨ explains c low high (S pos) numbers
        (check_token c low high (errors, seen) pos tok).2 e.
Proof.
  unfold explains. split.
  - intros (j & tok' & Hl & He). destruct j as [|j]; simpl in Hl.
    + left. simplify_eq. rewrite Nat.add_0_r in He.
      revert He. apply token_explains_mono. intros z. unfold earlier.
      intros [?|(i & ? & _)]; [done|lia].
    + right. exists j, tok'. split; [done|].
      rewrite Nat.add_succ_r in He. revert He.
      apply token_explains_mono. intros z. apply earlier_cons.
  - intros [He | (j & tok' & Hl & He)].
    + exists 0%nat, tok. split; [done|]. rewrite Nat.add_0_r.
      revert He. apply token_explains_mono. intros z. unfold earlier.
      by left.
    + exists (S j), tok'. split; [done|]. rewrite Nat.add_succ_r.
      revert He. apply token_explains_mono. intros z. apply earlier_cons.
Qed.

(** Every error of the walk is explained by one token, and conversely. *)
Lemma walk_errors numbers pos errors seen e :
  e ∈ (walk c low high pos numbers (errors, seen)).1
  ↔ e ∈ errors ∨ explains c low high pos numbers seen e.
Proof.
  revert pos errors seen.
  induction numbers as [|tok numbers IH]; intros pos errors seen; cbn [walk].
  - unfold explains. split; [by left|].
    intros [?|(j & tok & Hl & _)]; [done|by destruct j].
  - destruct (check_token c low high (errors, seen) pos tok) as [e1 s1] eqn:Hct.
    rewrite IH, (explains_cons _ _ _ errors).
    pose proof (check_token_errors c low high errors seen pos tok e) as Herr.
    rewrite Hct in Herr |- *. simpl in *. rewrite Herr. tauto.
Qed.

(** The set [seen] at the end of the walk. *)
Lemma walk_seen numbers pos errors seen z :
  z ∈ (walk c low high pos numbers (errors, seen)).2
  ↔ earlier c pos numbers seen (length numbers) z.
Proof.
  revert pos errors seen.
  induction numbers as [|tok numbers IH]; intros pos errors seen; cbn [walk].
  - unfold earlier. split; [by left|]. intros [?|(i & ? & _)]; [done|simpl in *; lia].
  - destruct (check_token c low high (errors, seen) pos tok) as [e1 s1] eqn:Hct.
    rewrite IH. cbn [length]. rewrite (earlier_cons _ _ _ errors), Hct. done.
Qed.
End walk_spec.

Section list_facts.
Context {A : Type} (P : A → Prop) `{!∀ x, Decision (P x)}.

Lemma filter_all (l : list A) : (∀ x, x ∈ l → P x) → filter P l = l.
Proof.
  induction l as [|x l IH]; intros Hl; [done|].
  rewrite filter_cons_True by (apply Hl; left).
  f_equal. apply IH. intros y Hy. apply Hl. by right.
Qed.

Lemma filter_none (l : list A) : (∀ x, x ∈ l → ¬ P x) → filter P l = [].
Proof.
  induction l as [|x l IH]; intros Hl; [done|].
  rewrite filter_cons_False by (apply Hl; left).
  apply IH. intros y Hy. apply Hl. by right.
Qed.
End list_facts.

Section card_facts.
Local Arguments column_errors : simpl never.
Local Arguments check_column : simpl never.
Implicit Types (c : column) (numbers b i n g o : list token)
  (errors : list error) (e : error).

Lemma token_explains_column c low high pos tok P e :
  token_explains c low high pos tok P e → err_column e = c.
Proof.
  unfold token_explains. destruct tok; [|by intros ->].
  case_decide; naive_solver.
Qed.

Lemma check_column_app errors col :
  check_column errors col = errors ++ column_errors col.
Proof.
  unfold column_errors, check_column. destruct col as [[c numbers] [low high]].
  case_bool_decide; [done|]. by rewrite walk_app.
Qed.

Lemma foldl_check_column errors (cols : list (column * list token * (Z * Z))) :
  foldl check_column errors cols = errors ++ concat (column_errors <$> cols).
Proof.
  revert errors. induction cols as [|col cols IH]; intros errors; simpl.
  - by rewrite app_nil_r.
  - by rewrite IH, check_column_app, <- app_assoc.
Qed.

Lemma card_errors_columns b i n g o :
  card_errors b i n g o =
  column_errors (ColB, b, (1, 15)) ++ column_errors (ColI, i, (16, 30))
  ++ column_errors (ColN, n, (31, 45)) ++ column_errors (ColG, g, (46, 60))
  ++ column_errors (ColO, o, (61, 75)).
Proof.
  unfold card_errors, columns.
  rewrite foldl_check_column. simpl. by rewrite app_nil_r.
Qed.

(** The errors of a column, by cases on its length. *)
Lemma column_errors_elem c numbers low high e :
  e ∈ column_errors (c, numbers, (low, high))
  ↔ (length numbers ≠ 5%nat ∧ e = ErrLength c (length numbers))
    ∨ (length numbers = 5%nat ∧ explains c low high 0 numbers ∅ e).
Proof.
  unfold column_errors, check_column. case_bool_decide as Hlen.
  - rewrite app_nil_l, list_elem_of_singleton. naive_solver.
  - rewrite walk_errors, elem_of_nil. naive_solver.
Qed.

Lemma column_errors_column c numbers range e :
  e ∈ column_errors (c, numbers, range) → err_column e = c.
Proof.
  destruct range as [low high]. rewrite column_errors_elem.
  intros [[_ ->] | [_ (j & tok & _ & He)]]; [done|].
  by eapply token_explains_column.
Qed.

Lemma filter_column_same c numbers range :
  filter (λ e, err_column e = c) (column_errors (c, numbers, range))
  = column_errors (c, numbers, range).
Proof. apply filter_all. intros e. apply column_errors_column. Qed.

Lemma filter_column_other c c' numbers range :
  c ≠ c' →
  filter (λ e, err_column e = c') (column_errors (c, numbers, range)) = [].
Proof.
  intros Hne. apply filter_none. intros e He%column_errors_column. congruence.
Qed.

(** What the card reports about one column is what that column yields
    when it is checked from an empty error list. *)
Lemma card_errors_of_column b i n g o c numbers range :
  (c, numbers, range) ∈ columns b i n g o →
  filter (λ e, err_column e = c) (card_errors b i n g o)
  = column_errors (c, numbers, range).
Proof.
  intros Hin. rewrite card_errors_columns, !filter_app.
  unfold columns in Hin.
  repeat (apply elem_of_cons in Hin as [Heq | Hin]);
    [..|by apply elem_of_nil in Hin]; simplify_eq;
    rewrite filter_column_same, !filter_column_other by done;
    by rewrite ?app_nil_r.
Qed.

Lemma card_errors_elem b i n g o e :
  e ∈ card_errors b i n g o
  ↔ ∃ col, col ∈ columns b i n g o ∧ e ∈ column_errors col.
Proof.
  rewrite card_errors_columns, !elem_of_app. unfold columns. split.
  - intros [?|[?|[?|[?|?]]]]; eexists; (split; [|done]);
      rewrite !elem_of_cons; tauto.
  - intros (col & Hin & He).
    repeat (apply elem_of_cons in Hin as [-> | Hin]);
      [..|by apply elem_of_nil in Hin]; tauto.
Qed.
End card_facts.

Section validator_claims.
Implicit Types (c : column) (numbers b i n g o : list token)
  (errors : list error) (e : error).

Lemma explains_center_none n e :
  n !! 2%nat = Some None →
  explains ColN 31 45 0 n ∅ e → ∀ z, e ≠ ErrCenter ColN z.
Proof.
  intros Hn (j & tok & Hl & He) z ->. unfold token_explains in He.
  destruct tok as [z'|]; [|done]. case_decide as Hc.
  - destruct Hc as [_ Hj]. simpl in Hj. subst j. congruence.
  - naive_solver.
Qed.

Lemma explains_no_center c low high pos numbers seen z :
  c ≠ ColN → ¬ explains c low high pos numbers seen (ErrCenter c z).
Proof.
  intros Hc (j & tok & _ & He). unfold token_explains in He.
  destruct tok; [|done]. case_decide as Hcen; [|naive_solver].
  by destruct Hcen.
Qed.

Lemma check_token_non_numeric c low high errors seen pos tok :
  length (filter (λ e, e = ErrNonNumeric c)
            (check_token c low high (errors, seen) pos tok).1)
  = (length (filter (λ e, e = ErrNonNumeric c) errors)
     + if decide (tok = None) then 1 else 0)%nat.
Proof.
  unfold check_token. destruct tok as [z|].
  - rewrite decide_False by done.
    repeat case_match; simpl;
      rewrite ?filter_app, ?length_app, ?filter_cons_False, ?filter_nil
        by done; simpl; lia.
  - rewrite decide_True by done. simpl.
    rewrite filter_app, filter_cons_True by done.
    by rewrite length_app.
Qed.

Lemma walk_non_numeric c low high numbers pos errors seen :
  length (filter (λ e, e = ErrNonNumeric c)
            (walk c low high pos numbers (errors, seen)).1)
  = (length (filter (λ e, e = ErrNonNumeric c) errors)
     + length (filter (λ t, t = None) numbers))%nat.
Proof.
  revert pos errors seen.
  induction numbers as [|tok numbers IH]; intros pos errors seen; cbn [walk].
  - simpl. lia.
  - destruct (check_token c low high (errors, seen) pos tok) as [e1 s1] eqn:Hct.
    rewrite IH.
    pose proof (check_token_non_numeric c low high errors seen pos tok) as H.
    rewrite Hct in H. cbn [fst] in H. rewrite H.
    rewrite (filter_cons _ tok numbers).
    destruct (decide (tok = None)); simpl; lia.
Qed.

(** C1, as the code has it: a marker at the free-space position of a
    five-token N column is reported as a non-numeric value (one such
    error per marker of the column), and the card carries no
    center-mismatch error. *)
Theorem marker_at_center_is_non_numeric b i n g o :
  length n = 5%nat →
  n !! 2%nat = Some None →
  ErrNonNumeric ColN ∈ card_errors b i n g o
  ∧ length (filter (λ e, e = ErrNonNumeric ColN) (card_errors b i n g o))
    = length (filter (λ t, t = None) n)
  ∧ ∀ c z, ErrCenter c z ∉ card_errors b i n g o.
Proof.
  intros Hlen Hn.
  assert (length (filter (λ e, e = ErrNonNumeric ColN) (card_errors b i n g o))
          = length (filter (λ t, t = None) n)) as Hcount.
  { rewrite card_errors_columns, !filter_app, !length_app.
    rewrite (filter_none _ (column_errors (ColB, _, _))),
      (filter_none _ (column_errors (ColI, _, _))),
      (filter_none _ (column_errors (ColG, _, _))),
      (filter_none _ (column_errors (ColO, _, _)))
      by (by intros e He%column_errors_column ->).
    unfold column_errors, check_column.
    rewrite bool_decide_false by (by rewrite Hlen; intros []).
    rewrite walk_non_numeric. simpl. lia. }
  split_and!; [|done|].
  - assert (None ∈ filter (λ t : token, t = None) n) as Hin.
    { apply list_elem_of_filter. split; [done|].
      by apply list_elem_of_lookup_2 in Hn. }
    destruct (filter (λ e, e = ErrNonNumeric ColN) (card_errors b i n g o))
      as [|e l] eqn:Hf.
    + destruct (filter (λ t : token, t = None) n); [|done].
      by apply elem_of_nil in Hin.
    + assert (e ∈ e :: l) as He by left. rewrite <- Hf in He.
      apply list_elem_of_filter in He as [-> He]. done.
  - intros c z (col & Hin & He)%card_errors_elem.
    destruct col as [[c' numbers] [low high]].
    pose proof (column_errors_column _ _ _ _ He) as Hc. simpl in Hc. subst c'.
    apply column_errors_elem in He as [[_ ?] | [_ He]]; [done|].
    unfold columns in Hin.
    repeat (apply elem_of_cons in Hin as [Heq | Hin]);
      [..|by apply elem_of_nil in Hin]; simplify_eq.
    3: exact (explains_center_none _ _ Hn He z eq_refl).
    all: by apply explains_no_center in He.
Qed.



Lemma columns_ok_no_errors b i n g o :
  (∀ c numbers low high,
     (c, numbers, (low, high)) ∈ columns b i n g o →
     column_ok c low high numbers) →
  card_errors b i n g o = [].
Proof.
  intros Hok. destruct (card_errors b i n g o) as [|e l] eqn:Herrs; [done|].
  exfalso. assert (e ∈ card_errors b i n g o) as He by (rewrite Herrs; left).
  apply card_errors_elem in He as ([[c numbers] [low high]] & Hin & He).
  destruct (Hok _ _ _ _ Hin) as (Hlen & Hnd & Htok).
  apply column_errors_elem in He as [[? _] | [_ (j & tok & Hl & He)]]; [done|].
  destruct (Htok _ _ Hl) as (z & -> & Hz). simpl in *.
  unfold token_explains in He.
  destruct (decide (is_center c j)) as [Hc|Hc]; [naive_solver|].
  destruct He as [[? _] | [[Hs | (k & Hk & _ & Hl')] _]]; [done| |].
  - by apply not_elem_of_empty in Hs.
  - pose proof (NoDup_lookup _ _ _ _ Hnd Hl Hl'). lia.
Qed.

(** C10: in a five-token N column the free-space value never enters
    [seen], and a duplicate error is reported exactly for a value that
    occurs at two positions other than the free-space one. *)
Theorem center_outside_seen b i n g o :
  length n = 5%nat →
  (∀ errors z,
     z ∈ (walk ColN 31 45 0 n (errors, ∅)).2
     ↔ ∃ p, p ≠ 2%nat ∧ n !! p = Some (Some z))
  ∧ (∀ z,
       ErrDuplicate ColN z ∈ card_errors b i n g o
       ↔ ∃ p q, (p < q)%nat ∧ p ≠ 2%nat ∧ q ≠ 2%nat
                ∧ n !! p = Some (Some z) ∧ n !! q = Some (Some z)).
Proof.
  intros Hlen. split.
  - intros errors z. rewrite walk_seen. unfold earlier, is_center. simpl.
    split.
    + intros [Hz | (p & _ & Hp & Hl)]; [by apply not_elem_of_empty in Hz|].
      exists p. naive_solver.
    + intros (p & Hp & Hl). right. exists p.
      split_and!; [by eapply lookup_lt_Some|naive_solver|done].
  - intros z. rewrite card_errors_elem. split.
    + intros ([[c numbers] [low high]] & Hin & He).
      pose proof (column_errors_column _ _ _ _ He) as Hc. simpl in Hc. subst c.
      unfold columns in Hin.
      repeat (apply elem_of_cons in Hin as [Heq | Hin]);
        [..|by apply elem_of_nil in Hin]; simplify_eq.
      apply column_errors_elem in He as [[_ ?] | [_ (q & tok & Hl & He)]];
        [done|].
      unfold token_explains in He. destruct tok as [z'|]; [|done].
      case_decide as Hc; [naive_solver|].
      destruct He as [[_ ?] | [[Hs | (p & Hp & Hcp & Hl')] ?]]; [done| |].
      { by apply not_elem_of_empty in Hs. }
      simplify_eq. exists p, q. unfold is_center in *. simpl in *.
      split_and!; [done|naive_solver|naive_solver|done|done].
    + intros (p & q & Hpq & Hp & Hq & Hlp & Hlq).
      exists (ColN, n, (31, 45)). split.
      { unfold columns. rewrite !elem_of_cons. tauto. }
      apply column_errors_elem. right. split; [done|].
      exists q, (Some z). split; [done|]. unfold token_explains.
      rewrite decide_False by (unfold is_center; naive_solver).
      right. split; [|done]. right. exists p.
      split_and!; [done|unfold is_center; naive_solver|done].
Qed.

(** C4: a card whose five columns are well formed is valid, and its
    message is [Card <id>: Valid]; the text of Scenario A goes through
    the whole pipeline to one such card. *)
Theorem well_formed_card_valid :
  (∀ card_id b i n g o,
     (∀ c numbers low high,
        (c, numbers, (low, high)) ∈ columns b i n g o →
        column_ok c low high numbers) →
     validate_card card_id b i n g o
     = (true, "Card " +:+ card_id +:+ ": Valid")
     ∧ ∃ prefix, (validate_card card_id b i n g o).2 = prefix +:+ "Valid")
  ∧ pipeline scenario_a
    = Ok ([CardResult "1"
             [Some 1; Some 2; Some 3; Some 4; Some 5]
             [Some 16; Some 17; Some 18; Some 19; Some 20]
             [Some 31; Some 32; Some 0; Some 34; Some 35]
             [Some 46; Some 47; Some 48; Some 49; Some 50]
             [Some 61; Some 62; Some 63; Some 64; Some 65]
             true "Card 1: Valid"], []).
Proof.
  split; [|by vm_compute].
  intros card_id b i n g o Hok.
  assert (validate_card card_id b i n g o
          = (true, "Card " +:+ card_id +:+ ": Valid")) as Hv.
  { unfold validate_card. by rewrite columns_ok_no_errors. }
  split; [done|]. rewrite Hv. exists ("Card " +:+ card_id +:+ ": ").
  simpl. by rewrite !str_app_assoc.
Qed.
End validator_claims.

(** ** Table parser *)

Section parser_facts.
Implicit Types (line l text : string) (st : parse_state)
  (lines pre post : list string).

Lemma parse_numbers_ok cell : parse_numbers cell = Ok (tokens_of cell).
Proof.
  unfold parse_numbers, tokens_of. rewrite eqb_empty.
  destruct (Str.is_empty cell || Str.is_empty (Str.strip cell)) eqn:Hg.
  - assert (Str.strip cell = "") as ->; [|done].
    apply orb_true_iff in Hg as [->%is_empty_true | ?%is_empty_true]; done.
  - by rewrite parse_numbers_loop.
Qed.

Lemma parse_line_ok st line :
  parse_line st line =
  Ok (if Str.is_empty (Str.strip line) then st
      else latch_step st (Str.strip line)).
Proof.
  unfold parse_line, latch_step, row_of_line. destruct st as [found data].
  destruct (Str.is_empty (Str.strip line)); [done|].
  destruct (is_header (Str.strip line)); [done|].
  destruct found; [|done]. simpl.
  destruct (Str.re_split Str.is_space (Str.strip line))
    as [|f0 [|f1 [|f2 [|f3 [|f4 [|f5 extra]]]]]];
    cbn -[parse_numbers]; by rewrite ?app_nil_r, ?parse_numbers_ok.
Qed.

Lemma parse_loop lines st :
  for_each lines st parse_line =
  Ok (foldl latch_step st
        (filter (λ l, l ≠ "") (Str.strip <$> lines))).
Proof.
  revert st. induction lines as [|line lines IH]; intros st; [done|].
  cbn [for_each]. rewrite parse_line_ok. cbn [mbind result_bind].
  rewrite IH, fmap_cons, filter_cons.
  destruct (Str.strip line) as [|c s].
  - by rewrite decide_False by naive_solver.
  - by rewrite decide_True.
Qed.

Lemma parse_text_table_ok text :
  parse_text_table text = Ok (foldl latch_step (false, []) (table_lines text)).2.
Proof. unfold parse_text_table. by rewrite parse_loop. Qed.

Lemma latch_before pre data :
  (∀ l, l ∈ pre → is_header l = false) →
  foldl latch_step (false, data) pre = (false, data).
Proof.
  induction pre as [|l pre IH]; intros Hpre; [done|]. simpl.
  unfold latch_step at 2. rewrite Hpre by left. simpl.
  apply IH. intros l' Hl'. apply Hpre. by right.
Qed.

Lemma rows_cons l lines :
  rows (l :: lines)
  = (if is_header l then [] else option_list (row_of_line l)) ++ rows lines.
Proof.
  unfold rows. rewrite filter_cons. destruct (is_header l).
  - by rewrite decide_False.
  - rewrite decide_True by done. simpl. by destruct (row_of_line l).
Qed.

Lemma latch_after post data :
  foldl latch_step (true, data) post = (true, data ++ rows post).
Proof.
  revert data. induction post as [|l post IH]; intros data.
  - simpl. by rewrite app_nil_r.
  - rewrite rows_cons. simpl. unfold latch_step at 2.
    destruct (is_header l); simpl; rewrite IH; by rewrite <- ?app_assoc.
Qed.

Lemma latch_table pre h post :
  (∀ l, l ∈ pre → is_header l = false) →
  is_header h = true →
  foldl latch_step (false, []) (pre ++ h :: post) = (true, rows post).
Proof.
  intros Hpre Hh. rewrite foldl_app, latch_before by done. simpl.
  unfold latch_step at 2. rewrite Hh. simpl. by rewrite latch_after.
Qed.

(** X11: without a header line there is no record. *)
Lemma no_header_no_rows text :
  (∀ l, l ∈ table_lines text → is_header l = false) →
  parse_text_table text = Ok [].
Proof.
  intros Hno. by rewrite parse_text_table_ok, latch_before.
Qed.

Lemma rows_app lines1 lines2 : rows (lines1 ++ lines2) = rows lines1 ++ rows lines2.
Proof. unfold rows. by rewrite filter_app, omap_app. Qed.
End parser_facts.

Section fields.
Implicit Types (s r cur line text : string) (c : ascii).

Lemma rstrip_idem s : Str.rstrip (Str.rstrip s) = Str.rstrip s.
Proof.
  induction s as [|c s IH]; [done|]. simpl.
  destruct (Str.is_space c && Str.is_empty (Str.rstrip s)) eqn:Hc; [done|].
  simpl. by rewrite IH, Hc.
Qed.

Lemma lstrip_head s c r : Str.lstrip s = String c r → Str.is_space c = false.
Proof.
  induction s as [|c' s IH]; [done|]. simpl.
  destruct (Str.is_space c') eqn:Hc; [done|]. by intros [= <- _].
Qed.

Lemma strip_head s c r :
  Str.strip s = String c r → Str.is_space c = false ∧ Str.rstrip r = r.
Proof.
  unfold Str.strip. destruct (Str.lstrip s) as [|c' r'] eqn:Hl; [done|].
  apply lstrip_head in Hl. simpl. rewrite Hl. simpl.
  intros [= <- <-]. by rewrite rstrip_idem.
Qed.

Lemma rstrip_fixed_cons c s :
  Str.rstrip (String c s) = String c s →
  Str.rstrip s = s ∧ (Str.is_space c = true → s ≠ "").
Proof.
  simpl. destruct (Str.is_space c && Str.is_empty (Str.rstrip s)) eqn:Hc;
    [done|].
  intros [= Hs]. split; [done|]. intros Hsp ->. by rewrite Hsp in Hc.
Qed.

Lemma re_split_go_no_empty s :
  Str.rstrip s = s →
  (∀ cur, cur ≠ "" → "" ∉ Str.re_split_go Str.is_space false cur s)
  ∧ (s ≠ "" → "" ∉ Str.re_split_go Str.is_space true "" s).
Proof.
  induction s as [|c s IH]; intros Hfix.
  - split; [|done]. intros cur Hcur. simpl.
    rewrite list_elem_of_singleton. naive_solver.
  - apply rstrip_fixed_cons in Hfix as [Hfix Hne].
    destruct (IH Hfix) as [IH1 IH2]. simpl.
    destruct (Str.is_space c) eqn:Hc.
    + split; [|intros _; by apply IH2, Hne].
      intros cur Hcur. rewrite not_elem_of_cons.
      split; [naive_solver|by apply IH2, Hne].
    + split; [|intros _; by apply IH1].
      intros cur Hcur. apply IH1. by destruct cur.
Qed.

(** The fields of a stripped, non-blank line are its fragments between
    the runs of white space. *)
Lemma stripped_line_fields line :
  Str.strip line ≠ "" →
  fragments_of Str.is_space (Str.strip line)
    (Str.re_split Str.is_space (Str.strip line)).
Proof.
  intros Hne. destruct (Str.strip line) as [|c r] eqn:Hs; [done|].
  destruct (strip_head _ _ _ Hs) as [Hc Hr].
  pose proof (re_split_fragments Str.is_space (String c r)) as Hfr.
  rewrite filter_all in Hfr; [done|].
  intros p Hp ->. revert Hp. unfold Str.re_split. simpl. rewrite Hc.
  by apply (re_split_go_no_empty r Hr).
Qed.

Lemma table_line_fields text l :
  l ∈ table_lines text →
  fragments_of Str.is_space l (Str.re_split Str.is_space l).
Proof.
  unfold table_lines.
  intros [Hne (line & -> & _)%list_elem_of_fmap]%list_elem_of_filter.
  by apply stripped_line_fields.
Qed.
End fields.

Section parser_claims.
Implicit Types (line l text : string) (lines pre post : list string).

(** C3, as the code has it: the records are the rows of the lines after
    the first header line, in their order, a later header line giving
    none; the fields of a line are its fragments between the runs of white
    space, its row is the record of the first six of them (identifier, then
    B, I, N, G, O), and exactly the lines with fewer than six fields have
    no row. *)
Theorem rows_after_header text pre h post :
  table_lines text = pre ++ h :: post →
  (∀ l, l ∈ pre → is_header l = false) →
  is_header h = true →
  parse_text_table text
  = Ok (omap row_of_line (filter (λ l, is_header l = false) post))
  ∧ (∀ l, l ∈ post →
       fragments_of Str.is_space l (Str.re_split Str.is_space l))
  ∧ ∀ l, (length (Str.re_split Str.is_space l) < 6)%nat
         ↔ row_of_line l = None.
Proof.
  intros Hlines Hpre Hh. split_and!.
  - rewrite parse_text_table_ok, Hlines, latch_table; done.
  - intros l Hl. apply (table_line_fields text). rewrite Hlines.
    rewrite elem_of_app, elem_of_cons. tauto.
  - intros l. unfold row_of_line.
    destruct (Str.re_split Str.is_space l)
      as [|f0 [|f1 [|f2 [|f3 [|f4 [|f5 extra]]]]]]; simpl; split;
      try done; try lia.
Qed.

(** C9, as the code has it: a line after the header that is not itself
    a header line and has more than six fields gives the record of its
    first six fields, in its place among the records. *)
Theorem extra_fields_ignored text pre h post1 l post2 :
  table_lines text = pre ++ h :: post1 ++ l :: post2 →
  (∀ l', l' ∈ pre → is_header l' = false) →
  is_header h = true →
  is_header l = false →
  (6 < length (Str.re_split Str.is_space l))%nat →
  ∃ c, card_of_fields (take 6 (Str.re_split Str.is_space l)) = Some c
       ∧ parse_text_table text = Ok (rows post1 ++ c :: rows post2).
Proof.
  intros Hlines Hpre Hh Hl Hlen.
  rewrite parse_text_table_ok, Hlines, latch_table by done.
  rewrite rows_app, rows_cons, Hl. unfold row_of_line.
  destruct (Str.re_split Str.is_space l)
    as [|f0 [|f1 [|f2 [|f3 [|f4 [|f5 extra]]]]]]; simpl in Hlen; try lia.
  eexists. split; [done|]. done.
Qed.
End parser_claims.

(** ** Duplicate pass *)

Section first_occ_facts.
Context {A : Type} `{EqDecision A}.
Implicit Types (l : list A) (x y : A).

Lemma elem_of_first_occ l x : x ∈ first_occ l ↔ x ∈ l.
Proof.
  induction l as [|y l IH]; simpl; [done|].
  rewrite !elem_of_cons, list_elem_of_filter, IH.
  destruct (decide (x = y)); naive_solver.
Qed.

Lemma NoDup_first_occ l : NoDup (first_occ l).
Proof.
  induction l as [|y l IH]; simpl; constructor.
  - rewrite list_elem_of_filter. naive_solver.
  - by apply NoDup_filter.
Qed.

Lemma first_occ_snoc l x :
  first_occ (l ++ [x])
  = if decide (x ∈ l) then first_occ l else first_occ l ++ [x].
Proof.
  induction l as [|y l IH]; simpl; [done|].
  rewrite IH. destruct (decide (x = y)) as [->|Hne].
  - rewrite (decide_True (P := y ∈ y :: l)) by left.
    destruct (decide (y ∈ l)); [done|].
    rewrite filter_app, filter_cons_False, filter_nil, app_nil_r by naive_solver.
    done.
  - destruct (decide (x ∈ l)) as [Hin|Hin].
    + by rewrite decide_True by by right.
    + rewrite decide_False by (rewrite elem_of_cons; naive_solver).
      by rewrite filter_app, filter_cons_True.
Qed.

Lemma filter_split (P : A → Prop) `{!∀ x, Decision (P x)} l u x v :
  filter P l = u ++ x :: v →
  ∃ u' v', l = u' ++ x :: v' ∧ filter P u' = u ∧ filter P v' = v.
Proof.
  revert u. induction l as [|y l IH]; intros u Hf.
  - by destruct u.
  - rewrite filter_cons in Hf. destruct (decide (P y)) as [Hy|Hy].
    + destruct u as [|y' u]; simpl in Hf.
      * injection Hf as -> <-. exists [], l. by rewrite filter_nil.
      * injection Hf as -> Hf.
        destruct (IH _ Hf) as (u' & v' & -> & <- & <-).
        exists (y' :: u'), v'. by rewrite filter_cons_True.
    + destruct (IH _ Hf) as (u' & v' & -> & <- & <-).
      exists (y :: u'), v'. by rewrite filter_cons_False.
Qed.

(** First-encounter order: what [first_occ l] lists after [x] does not
    occur in [l] before the first occurrence of [x]. *)
Lemma first_occ_order l u x v :
  first_occ l = u ++ x :: v →
  ∃ l1 l2, l = l1 ++ x :: l2 ∧ (x ∉ l1) ∧ (∀ y, y ∈ v → y ∉ l1).
Proof.
  revert u v. induction l as [|z l IH]; intros u v Hfo.
  - by destruct u.
  - simpl in Hfo. destruct u as [|z' u]; simpl in Hfo.
    + injection Hfo as -> _. exists [], l.
      split_and!; [done|apply not_elem_of_nil|].
      intros y _. apply not_elem_of_nil.
    + injection Hfo as -> Hfo.
      assert (x ≠ z') as Hx.
      { assert (x ∈ filter (λ y, y ≠ z') (first_occ l)) as Hin.
        { rewrite Hfo, elem_of_app, elem_of_cons. tauto. }
        by apply list_elem_of_filter in Hin as [? _]. }
      apply filter_split in Hfo as (u' & v' & Hl & _ & <-).
      destruct (IH _ _ Hl) as (l1 & l2 & -> & Hx1 & Hv).
      exists (z' :: l1), l2. split_and!; [done| |].
      * rewrite not_elem_of_cons. done.
      * intros y [Hy Hin]%list_elem_of_filter. rewrite not_elem_of_cons.
        split; [done|]. by apply Hv.
Qed.
End first_occ_facts.

Section grouping.
Context {K V : Type} `{EqDecision K}.
Implicit Types (kvs : list (K * V)) (k : K) (v : V) (ks : list K).

Lemma filed_snoc kvs k' v k :
  filed (kvs ++ [(k', v)]) k
  = if decide (k' = k) then filed kvs k ++ [v] else filed kvs k.
Proof.
  unfold filed. rewrite filter_app, fmap_app, filter_cons, filter_nil. simpl.
  destruct (decide (k' = k)); simpl; by rewrite ?app_nil_r.
Qed.

Lemma filed_absent kvs k : k ∉ kvs.*1 → filed kvs k = [].
Proof.
  intros Hk. unfold filed. rewrite filter_none; [done|].
  intros [k' v] Hin ?. simpl in *. subst k'. apply Hk.
  apply list_elem_of_fmap. by exists (k, v).
Qed.
End grouping.

Section setdefault.
Implicit Types (m : fingerprint_dict) (fp : fingerprint)
  (x : string * nat) (kvs : list (fingerprint * (string * nat))).

Lemma setdefault_append_absent (F : fingerprint → list (string * nat))
    (ks : list fingerprint) fp x :
  fp ∉ ks →
  setdefault_append ((λ k, (k, F k)) <$> ks) fp x
  = ((λ k, (k, F k)) <$> ks) ++ [(fp, [x])].
Proof.
  induction ks as [|k ks IH]; intros Hfp; [done|].
  apply not_elem_of_cons in Hfp as [Hne Hfp].
  rewrite fmap_cons. cbn [setdefault_append].
  rewrite decide_False by done. by rewrite IH.
Qed.

Lemma setdefault_append_present (F G : fingerprint → list (string * nat))
    (ks : list fingerprint) fp x :
  fp ∈ ks → NoDup ks →
  G fp = F fp ++ [x] → (∀ k, k ≠ fp → G k = F k) →
  setdefault_append ((λ k, (k, F k)) <$> ks) fp x
  = (λ k, (k, G k)) <$> ks.
Proof.
  intros Hin Hnd HG Hother.
  induction ks as [|k ks IH]; [by apply elem_of_nil in Hin|].
  apply NoDup_cons in Hnd as [Hk Hnd].
  rewrite !fmap_cons. cbn [setdefault_append].
  destruct (decide (k = fp)) as [->|Hne].
  - rewrite HG. f_equal. apply list_fmap_ext. intros j k' Hl.
    rewrite Hother; [done|]. intros ->. apply Hk.
    by eapply list_elem_of_lookup_2.
  - rewrite Hother by done. f_equal. apply IH; [|done].
    apply elem_of_cons in Hin as [?|?]; [congruence|done].
Qed.

(** One [setdefault(...).append(...)] keeps the dictionary grouped. *)
Lemma setdefault_append_grouped kvs fp x :
  setdefault_append (grouped kvs) fp x = grouped (kvs ++ [(fp, x)]).
Proof.
  unfold grouped.
  replace ((kvs ++ [(fp, x)]).*1) with (kvs.*1 ++ [fp]) by by rewrite fmap_app.
  rewrite first_occ_snoc.
  destruct (decide (fp ∈ kvs.*1)) as [Hin|Hin].
  - apply setdefault_append_present.
    + by apply elem_of_first_occ.
    + apply NoDup_first_occ.
    + by rewrite filed_snoc, decide_True.
    + intros k Hk. by rewrite filed_snoc, decide_False.
  - rewrite setdefault_append_absent by by rewrite elem_of_first_occ.
    rewrite fmap_app. simpl. f_equal.
    + apply list_fmap_ext. intros j k Hl.
      rewrite filed_snoc, decide_False; [done|]. intros ->. apply Hin.
      apply elem_of_first_occ. by eapply list_elem_of_lookup_2.
    + by rewrite filed_snoc, decide_True, filed_absent.
Qed.

Lemma build_fingerprint_map_grouped card_results idx kvs :
  build_fingerprint_map idx card_results (grouped kvs)
  = grouped (kvs ++ entries idx card_results).
Proof.
  revert idx kvs.
  induction card_results as [|r rest IH]; intros idx kvs; simpl.
  - by rewrite app_nil_r.
  - rewrite setdefault_append_grouped, IH, <- app_assoc. done.
Qed.

(** The dictionary the first loop builds. *)
Lemma fingerprint_map_grouped card_results :
  build_fingerprint_map 0 card_results [] = grouped (entries 0 card_results).
Proof. apply (build_fingerprint_map_grouped card_results 0 []). Qed.
End setdefault.

Section updates.
Implicit Types (l cr : list card_result) (us : list update) (i : nat).

Lemma apply_updates_length l us : length (apply_updates l us) = length l.
Proof.
  revert l. induction us as [|u us IH]; intros l; simpl; [done|].
  unfold apply_updates in *. simpl. by rewrite IH, length_alter.
Qed.

Lemma apply_updates_app l us1 us2 :
  apply_updates l (us1 ++ us2) = apply_updates (apply_updates l us1) us2.
Proof. apply foldl_app. Qed.

Lemma apply_updates_lookup_ne l us i :
  i ∉ us.*1 → apply_updates l us !! i = l !! i.
Proof.
  revert l. induction us as [|[j f] us IH]; intros l Hi; [done|].
  rewrite fmap_cons in Hi. apply not_elem_of_cons in Hi as [Hij Hi].
  unfold apply_updates in *. simpl.
  rewrite IH by done. by apply list_lookup_alter_ne.
Qed.

Lemma apply_updates_lookup l us i f :
  NoDup us.*1 → (i, f) ∈ us → apply_updates l us !! i = f <$> l !! i.
Proof.
  revert l. induction us as [|[j g] us IH]; intros l Hnd Hin.
  - by apply elem_of_nil in Hin.
  - rewrite fmap_cons in Hnd. apply NoDup_cons in Hnd as [Hj Hnd].
    apply elem_of_cons in Hin as [Heq|Hin].
    + injection Heq as -> ->.
      change (apply_updates (alter g j l) us !! j = g <$> l !! j).
      rewrite apply_updates_lookup_ne by done. apply list_lookup_alter_eq.
    + change (apply_updates (alter g j l) us !! i = f <$> l !! i).
      rewrite IH by done. rewrite list_lookup_alter_ne; [done|].
      intros ->. apply Hj. apply list_elem_of_fmap. by exists (i, f).
Qed.
End updates.

Section marking.
Implicit Types (cr : list card_result) (id_list ids : list (string * nat))
  (m : fingerprint_dict) (gs : list (list string)).

Lemma mark_member_ok id_list cr member :
  (member.2 < length cr)%nat →
  mark_member id_list cr member
  = Ok (apply_updates cr [member_update id_list member]).
Proof.
  destruct member as [cid idx]. simpl. intros Hlt.
  unfold mark_member, index.
  destruct (lookup_lt_is_Some_2 _ _ Hlt) as [r Hr]. rewrite Hr. simpl.
  f_equal. unfold apply_updates. simpl. apply list_eq. intros j.
  rewrite list_lookup_alter, list_lookup_insert.
  destruct (decide (idx = j)) as [->|?].
  - rewrite decide_True, Hr by done. done.
  - by rewrite decide_False by tauto.
Qed.

Lemma mark_members_ok id_list ids cr :
  (∀ member, member ∈ ids → (member.2 < length cr)%nat) →
  for_each ids cr (mark_member id_list)
  = Ok (apply_updates cr (member_update id_list <$> ids)).
Proof.
  revert cr. induction ids as [|member ids IH]; intros cr Hlt; [done|].
  cbn [for_each]. rewrite mark_member_ok by (apply Hlt; left).
  cbn [mbind result_bind]. rewrite IH; [done|].
  intros member' Hin. rewrite apply_updates_length. apply Hlt. by right.
Qed.

Lemma mark_group_ok cr gs item :
  (∀ member, member ∈ item.2 → (member.2 < length cr)%nat) →
  mark_group (cr, gs) item
  = Ok (apply_updates cr (group_updates item), gs ++ group_report item).
Proof.
  intros Hlt. unfold mark_group, group_updates, group_report.
  destruct item as [fp id_list]. simpl in *.
  destruct (1 <? length id_list)%nat.
  - by rewrite mark_members_ok.
  - by rewrite app_nil_r.
Qed.

Lemma mark_groups_ok m cr gs :
  (∀ item member, item ∈ m → member ∈ item.2 →
     (member.2 < length cr)%nat) →
  for_each m (cr, gs) mark_group
  = Ok (apply_updates cr (concat (group_updates <$> m)),
        gs ++ concat (group_report <$> m)).
Proof.
  revert cr gs. induction m as [|item m IH]; intros cr gs Hlt.
  - simpl. by rewrite app_nil_r.
  - cbn [for_each]. rewrite mark_group_ok by (intros; eapply Hlt; [left|done]).
    cbn [mbind result_bind]. rewrite IH.
    + rewrite !fmap_cons. cbn [concat].
      by rewrite apply_updates_app, <- app_assoc.
    + intros item' member Hitem Hmem. rewrite apply_updates_length.
      eapply Hlt; [by right|done].
Qed.
End marking.

Section concat_facts.
Context {A B : Type}.

Lemma elem_of_concat (ls : list (list A)) (x : A) :
  x ∈ concat ls ↔ ∃ l, l ∈ ls ∧ x ∈ l.
Proof.
  induction ls as [|l ls IH]; simpl.
  - split; [by intros ?%elem_of_nil|]. by intros (l & ?%elem_of_nil & _).
  - rewrite elem_of_app, IH. split.
    + intros [?|(l' & ? & ?)]; [exists l|exists l']; rewrite elem_of_cons; tauto.
    + intros (l' & [->|?]%elem_of_cons & ?); [by left|right; by exists l'].
Qed.

Lemma NoDup_fmap_filter (f : A → B) (P : A → Prop) `{!∀ x, Decision (P x)}
    (l : list A) :
  NoDup (f <$> l) → NoDup (f <$> filter P l).
Proof.
  induction l as [|x l IH]; [done|].
  rewrite fmap_cons, NoDup_cons, filter_cons. intros [Hx Hnd].
  destruct (decide (P x)); [|by apply IH].
  rewrite fmap_cons, NoDup_cons. split; [|by apply IH].
  intros (y & Hy & [_ Hin]%list_elem_of_filter)%list_elem_of_fmap.
  apply Hx. apply list_elem_of_fmap. by exists y.
Qed.

Lemma NoDup_fmap_inj (f : A → B) (l : list A) x y :
  NoDup (f <$> l) → x ∈ l → y ∈ l → f x = f y → x = y.
Proof.
  induction l as [|z l IH]; [by intros _ ?%elem_of_nil|].
  rewrite fmap_cons, NoDup_cons. intros [Hz Hnd] Hx Hy Hf.
  apply elem_of_cons in Hx as [->|Hx], Hy as [->|Hy]; [done| | |by apply IH].
  - exfalso. apply Hz. apply list_elem_of_fmap. by exists y.
  - exfalso. apply Hz. apply list_elem_of_fmap. by exists x.
Qed.
End concat_facts.

Section entries_facts.
Implicit Types (rs : list card_result) (r : card_result) (fp : fingerprint)
  (cid : string) (idx k : nat).

Lemma elem_of_entries k rs fp cid idx :
  (fp, (cid, idx)) ∈ entries k rs
  ↔ ∃ r, (k ≤ idx)%nat ∧ rs !! (idx - k)%nat = Some r
         ∧ fp = fingerprint_of r ∧ cid = res_id r.
Proof.
  revert k. induction rs as [|r rs IH]; intros k; simpl.
  - split; [by intros ?%elem_of_nil|]. by intros (r & _ & ? & _).
  - rewrite elem_of_cons, IH. split.
    + intros [Heq | (r' & Hk & Hl & -> & ->)].
      * injection Heq as -> -> ->. exists r. rewrite Nat.sub_diag.
        split_and!; [lia|done|done|done].
      * exists r'. replace (idx - k)%nat with (S (idx - S k)) by lia.
        split_and!; [lia|done|done|done].
    + intros (r' & Hk & Hl & -> & ->).
      destruct (decide (idx = k)) as [->|Hne].
      * left. rewrite Nat.sub_diag in Hl. simpl in Hl. by injection Hl as ->.
      * right. exists r'.
        replace (idx - k)%nat with (S (idx - S k)) in Hl by lia.
        split_and!; [lia|done|done|done].
Qed.

Lemma entries_indices k rs : (entries k rs).*2.*2 = seq k (length rs).
Proof. revert k. induction rs as [|r rs IH]; intros k; simpl; by rewrite ?IH. Qed.

Lemma entries_keys k rs : (entries k rs).*1 = fingerprint_of <$> rs.
Proof. revert k. induction rs as [|r rs IH]; intros k; simpl; by rewrite ?IH. Qed.

Lemma filed_entries_cons k r rs fp :
  filed (entries k (r :: rs)) fp
  = (if decide (fingerprint_of r = fp) then [(res_id r, k)] else [])
    ++ filed (entries (S k) rs) fp.
Proof.
  unfold filed. simpl. rewrite filter_cons. simpl.
  by destruct (decide (fingerprint_of r = fp)).
Qed.

(** The identifiers filed under a fingerprint are those of the cards
    with that fingerprint, in batch order. *)
Lemma filed_entries_ids k rs fp :
  (filed (entries k rs) fp).*1
  = res_id <$> filter (λ r, fingerprint_of r = fp) rs.
Proof.
  revert k. induction rs as [|r rs IH]; intros k; [done|].
  rewrite filed_entries_cons, fmap_app, IH, filter_cons.
  by destruct (decide (fingerprint_of r = fp)).
Qed.

Lemma filed_entries_length k rs fp :
  length (filed (entries k rs) fp)
  = length (filter (λ r, fingerprint_of r = fp) rs).
Proof.
  rewrite <- (length_fmap fst), filed_entries_ids. by rewrite length_fmap.
Qed.

(** The list [other_ids] for a member with identifier [cid]. *)
Lemma other_ids_filed k rs fp cid :
  other_ids (filed (entries k rs) fp) cid
  = res_id <$> filter (λ r, fingerprint_of r = fp ∧ res_id r ≠ cid) rs.
Proof.
  unfold other_ids. revert k. induction rs as [|r rs IH]; intros k; [done|].
  rewrite filed_entries_cons, filter_app, fmap_app, IH.
  rewrite (filter_cons _ r rs).
  destruct (decide (fingerprint_of r = fp)) as [Hfp|Hfp].
  - rewrite filter_cons, filter_nil. simpl.
    destruct (decide (res_id r ≠ cid)).
    + by rewrite decide_True.
    + by rewrite decide_False by tauto.
  - rewrite filter_nil. simpl. by rewrite decide_False by tauto.
Qed.
End entries_facts.

Section duplicate_pass.
Implicit Types (rs : list card_result) (r : card_result) (fp : fingerprint)
  (cid : string) (idx : nat) (kvs : list (fingerprint * (string * nat))).

Lemma group_updates_indices kvs fp i :
  i ∈ (group_updates (fp, filed kvs fp)).*1 →
  (1 < length (filed kvs fp))%nat ∧ ∃ cid, (fp, (cid, i)) ∈ kvs.
Proof.
  unfold group_updates. simpl.
  destruct (Nat.ltb_spec 1 (length (filed kvs fp))) as [Hlen|_];
    [|by intros ?%elem_of_nil].
  rewrite <- list_fmap_compose.
  intros ([cid i'] & -> & Hin)%list_elem_of_fmap. simpl.
  split; [done|]. exists cid. unfold filed in Hin.
  apply list_elem_of_fmap in Hin as ([fp' x] & -> & Hin).
  apply list_elem_of_filter in Hin as [Hfp Hin]. simpl in *. by subst fp'.
Qed.

Lemma grouped_updates_indices kvs (ks : list fingerprint) i :
  i ∈ (concat (group_updates <$> ((λ k, (k, filed kvs k)) <$> ks))).*1 →
  ∃ k cid, k ∈ ks ∧ (1 < length (filed kvs k))%nat ∧ (k, (cid, i)) ∈ kvs.
Proof.
  intros (u & -> & Hu)%list_elem_of_fmap.
  apply elem_of_concat in Hu as (us & Hus & Hu).
  apply list_elem_of_fmap in Hus as (item & -> & Hitem).
  apply list_elem_of_fmap in Hitem as (k & -> & Hk).
  destruct (group_updates_indices kvs k u.1) as (Hlen & cid & Hin).
  { apply list_elem_of_fmap. by exists u. }
  by exists k, cid.
Qed.

Lemma grouped_updates_NoDup kvs (ks : list fingerprint) :
  NoDup kvs.*2.*2 → NoDup ks →
  NoDup (concat (group_updates <$> ((λ k, (k, filed kvs k)) <$> ks))).*1.
Proof.
  intros Hkvs. induction ks as [|k ks IH]; intros Hks; [constructor|].
  apply NoDup_cons in Hks as [Hk Hks].
  rewrite !fmap_cons. cbn [concat]. rewrite fmap_app.
  apply NoDup_app. split_and!; [| |by apply IH].
  - unfold group_updates. simpl.
    destruct (1 <? length (filed kvs k))%nat; [|constructor].
    rewrite <- list_fmap_compose. unfold filed.
    rewrite <- list_fmap_compose. apply NoDup_fmap_filter.
    by rewrite <- list_fmap_compose in Hkvs.
  - intros i (_ & cid & Hin)%group_updates_indices
      (k' & cid' & Hk' & _ & Hin')%grouped_updates_indices.
    rewrite <- list_fmap_compose in Hkvs.
    pose proof (NoDup_fmap_inj _ _ _ _ Hkvs Hin Hin' eq_refl) as Heq.
    injection Heq as -> _. done.
Qed.

(** The two results of the duplicate pass, the loops unrolled. *)
Lemma mark_duplicates_ok rs :
  mark_duplicates rs
  = Ok (apply_updates rs
          (concat (group_updates <$> grouped (entries 0 rs))),
        concat (group_report <$> grouped (entries 0 rs))).
Proof.
  unfold mark_duplicates. rewrite fingerprint_map_grouped.
  rewrite mark_groups_ok; [done|].
  intros [fp ids] [cid idx] Hitem Hmem. simpl in *.
  unfold grouped in Hitem.
  apply list_elem_of_fmap in Hitem as (k & Heq & _).
  injection Heq as -> ->. unfold filed in Hmem.
  apply list_elem_of_fmap in Hmem as ([fp' [cid' idx']] & Heq & Hin).
  simpl in Heq. injection Heq as -> ->.
  apply list_elem_of_filter in Hin as [_ Hin].
  apply elem_of_entries in Hin as (r & _ & Hl & _).
  apply lookup_lt_Some in Hl. lia.
Qed.

(** What the pass leaves at an index: the tuple marked with the
    identifiers filed under its fingerprint when there are at least two
    of them, the tuple as it was otherwise. *)
Lemma marked_lookup rs idx r :
  rs !! idx = Some r →
  apply_updates rs (concat (group_updates <$> grouped (entries 0 rs))) !! idx
  = Some (if (1 <? length (filed (entries 0 rs) (fingerprint_of r)))%nat
          then mark r (duplicate_msg (filed (entries 0 rs) (fingerprint_of r))
                         (res_id r))
          else r).
Proof.
  intros Hr.
  assert ((fingerprint_of r, (res_id r, idx)) ∈ entries 0 rs) as Hentry.
  { apply elem_of_entries. exists r. rewrite Nat.sub_0_r.
    split_and!; [lia|done|done|done]. }
  destruct (Nat.ltb_spec 1 (length (filed (entries 0 rs) (fingerprint_of r))))
    as [Hlen|Hlen].
  - rewrite (apply_updates_lookup _ _ idx
               (λ r', mark r' (duplicate_msg
                                 (filed (entries 0 rs) (fingerprint_of r))
                                 (res_id r)))).
    + by rewrite Hr.
    + apply grouped_updates_NoDup; [|apply NoDup_first_occ].
      rewrite entries_indices. apply NoDup_seq.
    + apply elem_of_concat.
      exists (group_updates (fingerprint_of r,
                             filed (entries 0 rs) (fingerprint_of r))).
      split.
      * apply list_elem_of_fmap. eexists. split; [done|].
        unfold grouped. apply list_elem_of_fmap.
        exists (fingerprint_of r). split; [done|].
        apply elem_of_first_occ, list_elem_of_fmap.
        by exists (fingerprint_of r, (res_id r, idx)).
      * unfold group_updates. simpl.
        apply Nat.ltb_lt in Hlen. rewrite Hlen.
        apply list_elem_of_fmap. exists (res_id r, idx). split; [done|].
        unfold filed. apply list_elem_of_fmap. eexists. split; [|
          apply list_elem_of_filter; split; [|exact Hentry]]; done.
  - rewrite apply_updates_lookup_ne; [done|].
    intros (k & cid & _ & Hk & Hin)%grouped_updates_indices.
    apply elem_of_entries in Hin as (r' & _ & Hl & -> & _).
    rewrite Nat.sub_0_r, Hr in Hl. injection Hl as <-. lia.
Qed.
End duplicate_pass.

Section duplicate_claims.
Implicit Types (rs : list card_result) (r : card_result) (fp : fingerprint)
  (cid : string) (idx : nat).

Lemma group_reports rs (ks : list fingerprint) :
  concat (group_report <$> ((λ k, (k, filed (entries 0 rs) k)) <$> ks))
  = (λ fp, res_id <$> filter (λ r, fingerprint_of r = fp) rs)
      <$> filter (λ fp, (1 < length (filter (λ r, fingerprint_of r = fp) rs))%nat)
            ks.
Proof.
  induction ks as [|k ks IH]; [done|].
  rewrite !fmap_cons. cbn [concat]. rewrite IH, filter_cons.
  unfold group_report. simpl. rewrite filed_entries_length, filed_entries_ids.
  destruct (decide (1 < length (filter (λ r, fingerprint_of r = k) rs))%nat)
    as [Hlen|Hlen].
  - apply Nat.ltb_lt in Hlen. by rewrite Hlen.
  - apply Nat.ltb_nlt in Hlen. by rewrite Hlen.
Qed.

(** What the pass writes for a card whose content occurs at least twice:
    identifier and columns as before, the flag false, and after the fixed
    text the identifiers of the cards of that content whose identifier
    differs from the card's own. *)
Lemma duplicate_member_rewritten rs idx r :
  rs !! idx = Some r →
  (1 < length (filter (λ r', fingerprint_of r' = fingerprint_of r) rs))%nat →
  ∃ results groups,
    mark_duplicates rs = Ok (results, groups)
    ∧ results !! idx
      = Some (CardResult (res_id r) (res_b r) (res_i r) (res_n r) (res_g r)
                (res_o r) false
                (if res_valid r
                 then "Valid but Duplicate of card(s) "
                      +:+ Str.join ", "
                            (res_id <$> filter
                               (λ r', fingerprint_of r' = fingerprint_of r
                                      ∧ res_id r' ≠ res_id r) rs)
                 else res_msg r +:+ "; Duplicate of card(s) "
                      +:+ Str.join ", "
                            (res_id <$> filter
                               (λ r', fingerprint_of r' = fingerprint_of r
                                      ∧ res_id r' ≠ res_id r) rs))).
Proof.
  intros Hr Hlen. eexists _, _. split; [apply mark_duplicates_ok|].
  rewrite (marked_lookup _ _ _ Hr), filed_entries_length.
  apply Nat.ltb_lt in Hlen. rewrite Hlen.
  unfold mark, duplicate_msg. rewrite other_ids_filed.
  by destruct (res_valid r).
Qed.

(** C8: the reported groups are the identifier lists of the fingerprints
    shared by at least two cards; each list is in batch order, and the
    fingerprints are distinct and in first-encounter order. *)
Theorem duplicate_groups_order rs :
  ∃ results,
    mark_duplicates rs
    = Ok (results,
          (λ fp, res_id <$> filter (λ r, fingerprint_of r = fp) rs)
            <$> duplicate_fingerprints rs)
    ∧ NoDup (duplicate_fingerprints rs)
    ∧ ∀ u fp v,
        duplicate_fingerprints rs = u ++ fp :: v →
        ∃ l1 l2, fingerprint_of <$> rs = l1 ++ fp :: l2
                 ∧ (fp ∉ l1) ∧ (∀ fp', fp' ∈ v → fp' ∉ l1).
Proof.
  eexists. split_and!.
  - rewrite mark_duplicates_ok. unfold grouped.
    by rewrite group_reports, entries_keys.
  - apply NoDup_filter, NoDup_first_occ.
  - intros u fp v Hsplit. unfold duplicate_fingerprints in Hsplit.
    apply filter_split in Hsplit as (u' & v' & Hfo & _ & <-).
    apply first_occ_order in Hfo as (l1 & l2 & Hl & Hfp & Hv).
    exists l1, l2. split_and!; [done|done|].
    intros fp' [_ Hin]%list_elem_of_filter. by apply Hv.
Qed.

Lemma filter_ext_in {A} (P Q : A → Prop) `{!∀ x, Decision (P x)}
    `{!∀ x, Decision (Q x)} (l : list A) :
  (∀ x, x ∈ l → P x ↔ Q x) → filter P l = filter Q l.
Proof.
  induction l as [|x l IH]; intros Hl; [done|].
  rewrite !filter_cons, IH by (intros y Hy; apply Hl; by right).
  destruct (decide (P x)) as [HP|HP].
  - by rewrite decide_True by (by apply (Hl x); [left|]).
  - rewrite decide_False; [done|]. intros HQ. apply HP. apply (Hl x); [left|done].
Qed.

(** When no other card of the group carries the identifier of the member
    at [idx], the identifiers the pass lists are those of the group with
    the member itself taken out. *)
Lemma other_ids_when_distinct rs idx r :
  rs !! idx = Some r →
  (∀ j r', j ≠ idx → rs !! j = Some r' →
     fingerprint_of r' = fingerprint_of r → res_id r' ≠ res_id r) →
  res_id <$> filter (λ r', fingerprint_of r' = fingerprint_of r
                           ∧ res_id r' ≠ res_id r) rs
  = res_id <$> filter (λ r', fingerprint_of r' = fingerprint_of r)
                 (delete idx rs).
Proof.
  revert idx. induction rs as [|r0 rs IH]; intros idx Hr Hother; [done|].
  destruct idx as [|idx]; simpl in Hr.
  - injection Hr as ->. simpl. rewrite filter_cons_False by (by intros [_ ?]).
    f_equal. apply filter_ext_in.
    intros r' Hin. apply list_elem_of_lookup in Hin as [j Hj].
    split; [naive_solver|]. intros Hfp. split; [done|].
    by apply (Hother (S j)).
  - assert (fingerprint_of r0 = fingerprint_of r → res_id r0 ≠ res_id r)
      as H0 by (by apply (Hother 0%nat)).
    assert (res_id <$> filter (λ r', fingerprint_of r' = fingerprint_of r
                                     ∧ res_id r' ≠ res_id r) rs
            = res_id <$> filter (λ r', fingerprint_of r' = fingerprint_of r)
                           (delete idx rs)) as Hrec.
    { apply IH; [done|]. intros j r' Hj Hl. apply (Hother (S j)); [lia|done]. }
    change (delete (S idx) (r0 :: rs)) with (r0 :: delete idx rs).
    rewrite !filter_cons.
    destruct (decide (fingerprint_of r0 = fingerprint_of r)).
    + rewrite decide_True by (split; [done|by apply H0]).
      by rewrite !fmap_cons, Hrec.
    + by rewrite decide_False by (by intros [? _]).
Qed.

(** C2 at three cards of equal content with identifiers 1, 1 and 2: each
    card 1 is told only about card 2, the other card 1 is left out, while
    the reported group names all three. *)
Theorem same_identifier_left_out :
  pipeline three_cards_text
  = Ok ([CardResult "1"
           [Some 1; Some 2; Some 3; Some 4; Some 5]
           [Some 16; Some 17; Some 18; Some 19; Some 20]
           [Some 31; Some 32; Some 0; Some 34; Some 35]
           [Some 46; Some 47; Some 48; Some 49; Some 50]
           [Some 61; Some 62; Some 63; Some 64; Some 65]
           false "Valid but Duplicate of card(s) 2";
         CardResult "1"
           [Some 1; Some 2; Some 3; Some 4; Some 5]
           [Some 16; Some 17; Some 18; Some 19; Some 20]
           [Some 31; Some 32; Some 0; Some 34; Some 35]
           [Some 46; Some 47; Some 48; Some 49; Some 50]
           [Some 61; Some 62; Some 63; Some 64; Some 65]
           false "Valid but Duplicate of card(s) 2";
         CardResult "2"
           [Some 1; Some 2; Some 3; Some 4; Some 5]
           [Some 16; Some 17; Some 18; Some 19; Some 20]
           [Some 31; Some 32; Some 0; Some 34; Some 35]
           [Some 46; Some 47; Some 48; Some 49; Some 50]
           [Some 61; Some 62; Some 63; Some 64; Some 65]
           false "Valid but Duplicate of card(s) 1, 1"],
        [["1"; "1"; "2"]]).
Proof. vm_compute. reflexivity. Qed.

(** C5 at six cards, three of one valid content with identifiers 1, 1 and 2
    and three of one content with a short B column and identifiers 3, 3
    and 4: every card keeps its identifier and its columns and is invalid,
    the valid ones get [Valid but Duplicate of card(s) ...] and the others
    their old message followed by [; Duplicate of card(s) ...], but the
    list after it is short of a member for the cards 1 and 3: the other
    card of the same identifier is left out of it. *)
Theorem shared_identifier_messages :
  pipeline six_cards_text
  = Ok ([CardResult "1" sample_b sample_i sample_n sample_g sample_o
           false "Valid but Duplicate of card(s) 2";
         CardResult "1" sample_b sample_i sample_n sample_g sample_o
           false "Valid but Duplicate of card(s) 2";
         CardResult "2" sample_b sample_i sample_n sample_g sample_o
           false "Valid but Duplicate of card(s) 1, 1";
         CardResult "3" short_b sample_i sample_n sample_g sample_o
           false "Card 3: B: expected 5 numbers, got 4; Duplicate of card(s) 4";
         CardResult "3" short_b sample_i sample_n sample_g sample_o
           false "Card 3: B: expected 5 numbers, got 4; Duplicate of card(s) 4";
         CardResult "4" short_b sample_i sample_n sample_g sample_o
           false
           "Card 4: B: expected 5 numbers, got 4; Duplicate of card(s) 3, 3"],
        [["1"; "1"; "2"]; ["3"; "3"; "4"]]).
Proof. vm_compute. reflexivity. Qed.
End duplicate_claims.

(** ** The claims at the sample inputs *)

Lemma sample_columns_ok c numbers low high :
  (c, numbers, (low, high))
    ∈ columns sample_b sample_i sample_n sample_g sample_o →
  column_ok c low high numbers.
Proof.
  unfold columns. intros Hin.
  repeat (apply elem_of_cons in Hin as [Heq | Hin]);
    [..|by apply elem_of_nil in Hin]; simplify_eq;
    (split_and!; [done|refine (bool_decide_unpack _ _); by vm_compute|]);
    intros pos tok Hl;
    do 5 (destruct pos as [|pos];
          [injection Hl as <-; eexists; split; [done|]; cbv; try done;
           by split; intros [=] |]);
    done.
Qed.

Lemma marker_at_center_witness :
  length marker_n = 5%nat
  ∧ marker_n !! 2%nat = Some None
  ∧ ErrNonNumeric ColN
      ∈ card_errors sample_b sample_i marker_n sample_g sample_o
  ∧ length (filter (λ e, e = ErrNonNumeric ColN)
              (card_errors sample_b sample_i marker_n sample_g sample_o))
    = length (filter (λ t, t = None) marker_n)
  ∧ ∀ c z, ErrCenter c z
             ∉ card_errors sample_b sample_i marker_n sample_g sample_o.
Proof.
  split; [reflexivity|]. split; [reflexivity|].
  apply (marker_at_center_is_non_numeric
           sample_b sample_i marker_n sample_g sample_o); reflexivity.
Defined.

Lemma marker_at_center_counterexample :
  length marker_n = 5%nat
  ∧ marker_n !! 2%nat = Some None
  ∧ card_errors sample_b sample_i marker_n sample_g sample_o
    = [ErrNonNumeric ColN]
  ∧ validate_card "1" sample_b sample_i marker_n sample_g sample_o
    = (false, "Card 1: N: non‑numeric value")
  ∧ ¬ ∃ z, ErrCenter ColN z
             ∈ card_errors sample_b sample_i marker_n sample_g sample_o.
Proof.
  split_and!; [reflexivity|reflexivity|by vm_compute|by vm_compute|].
  intros [z Hz].
  assert (card_errors sample_b sample_i marker_n sample_g sample_o
          = [ErrNonNumeric ColN]) as Heq by by vm_compute.
  rewrite Heq in Hz. by apply list_elem_of_singleton in Hz.
Qed.

Lemma rows_after_header_witness :
  table_lines scenario_a = [] ++ header_line :: [data_line]
  ∧ is_header header_line = true
  ∧ parse_text_table scenario_a
    = Ok (omap row_of_line
            (filter (λ l, is_header l = false) [data_line]))
  ∧ (∀ l, l ∈ [data_line] →
       fragments_of Str.is_space l (Str.re_split Str.is_space l))
  ∧ ∀ l, (length (Str.re_split Str.is_space l) < 6)%nat
         ↔ row_of_line l = None.
Proof.
  split; [by vm_compute|]. split; [reflexivity|].
  apply (rows_after_header scenario_a [] header_line [data_line]).
  - by vm_compute.
  - intros l Hl. by apply elem_of_nil in Hl.
  - reflexivity.
Defined.

Lemma rows_after_header_counterexample :
  table_lines card_7_text = [header_line; card_7_line]
  ∧ is_header header_line = true
  ∧ length (Str.re_split Str.is_space card_7_line) = 7%nat
  ∧ row_of_line card_7_line
    = Some (Card "Card" [Some 7] sample_b sample_i sample_n sample_g)
  ∧ parse_text_table card_7_text = Ok [].
Proof. split_and!; by vm_compute. Qed.

Lemma extra_fields_witness :
  table_lines long_text = [] ++ header_line :: [] ++ long_line :: []
  ∧ is_header header_line = true
  ∧ is_header long_line = false
  ∧ (6 < length (Str.re_split Str.is_space long_line))%nat
  ∧ ∃ c, card_of_fields (take 6 (Str.re_split Str.is_space long_line))
         = Some c
         ∧ parse_text_table long_text = Ok (rows [] ++ c :: rows []).
Proof.
  split; [by vm_compute|]. split; [reflexivity|]. split; [reflexivity|].
  split; [vm_compute; lia|].
  apply (extra_fields_ignored long_text [] header_line [] long_line []).
  - by vm_compute.
  - intros l Hl. by apply elem_of_nil in Hl.
  - reflexivity.
  - reflexivity.
  - vm_compute. lia.
Defined.

Lemma extra_fields_counterexample :
  table_lines two_headers_text = [header_line; data_line; header_line]
  ∧ is_header header_line = true
  ∧ length (Str.re_split Str.is_space header_line) = 7%nat
  ∧ parse_text_table two_headers_text
    = Ok [Card "1" sample_b sample_i sample_n sample_g sample_o].
Proof. split_and!; by vm_compute. Qed.

Lemma well_formed_card_witness :
  validate_card "1" sample_b sample_i sample_n sample_g sample_o
  = (true, "Card 1: Valid")
  ∧ ∃ prefix,
      (validate_card "1" sample_b sample_i sample_n sample_g sample_o).2
      = prefix +:+ "Valid".
Proof.
  apply (proj1 well_formed_card_valid
           "1" sample_b sample_i sample_n sample_g sample_o).
  apply sample_columns_ok.
Defined.

Lemma duplicate_member_witness :
  twin_results !! 1%nat
  = Some (CardResult "2" sample_b sample_i sample_n sample_g sample_o
            false "Card 2: checked by hand")
  ∧ ∃ results groups,
      mark_duplicates twin_results = Ok (results, groups)
      ∧ results !! 1%nat
        = Some (CardResult "2" sample_b sample_i sample_n sample_g sample_o
                  false "Card 2: checked by hand; Duplicate of card(s) 1").
Proof.
  split; [reflexivity|].
  destruct (duplicate_member_rewritten twin_results 1
              (CardResult "2" sample_b sample_i sample_n sample_g sample_o
                 false "Card 2: checked by hand"))
    as (results & groups & Hok & Hl).
  - reflexivity.
  - vm_compute. lia.
  - exists results, groups. split; [exact Hok|]. rewrite Hl. by vm_compute.
Defined.

Lemma underscore_counterexample :
  parse_numbers "1_0" = Ok [Some 10]
  ∧ fragments_of is_cell_delim "1_0" ["1_0"]
  ∧ ¬ ∃ z, decimal_numeral "1_0" z.
Proof.
  split_and!.
  - by vm_compute.
  - apply (frags_more is_cell_delim "" "1_0" "" []); try done.
    by constructor.
  - assert (∀ ds, ¬ plain_digits "1_0" ds) as Hno.
    { intros ds H. inversion H as [|? ? ? ? _ H']; subst.
      inversion H'; subst; discriminate. }
    intros [z H]. inversion H as [? ds Hd|? ds Hd|? ds Hd]; subst.
    by apply Hno in Hd.
Qed.

(** Strings that write an integer, and strings that do not. *)
Example numerals_read :
  decimal_numeral "-45" (-45)
  ∧ decimal_numeral "+007" 7
  ∧ int_literal "1_000" 1000
  ∧ (∀ z, ¬ int_literal "1__0" z)
  ∧ (∀ z, ¬ int_literal "_10" z)
  ∧ (∀ z, ¬ int_literal "12a" z)
  ∧ (∀ z, ¬ int_literal "-" z).
Proof.
  split_and!.
  - apply (numeral_minus "45" [4; 5]). by repeat constructor.
  - apply (numeral_plus "007" [0; 0; 7]). by repeat constructor.
  - by apply int_spec.
  - intros z Hz. by apply int_spec in Hz.
  - intros z Hz. by apply int_spec in Hz.
  - intros z Hz. by apply int_spec in Hz.
  - intros z Hz. by apply int_spec in Hz.
Qed.


Lemma center_outside_seen_witness :
  length repeat_n = 5%nat
  ∧ (∀ errors z,
       z ∈ (walk ColN 31 45 0 repeat_n (errors, ∅)).2
       ↔ ∃ p, p ≠ 2%nat ∧ repeat_n !! p = Some (Some z))
  ∧ (∀ z,
       ErrDuplicate ColN z
         ∈ card_errors sample_b sample_i repeat_n sample_g sample_o
       ↔ ∃ p q, (p < q)%nat ∧ p ≠ 2%nat ∧ q ≠ 2%nat
                ∧ repeat_n !! p = Some (Some z)
                ∧ repeat_n !! q = Some (Some z)).
Proof.
  split; [reflexivity|].
  apply (center_outside_seen sample_b sample_i repeat_n sample_g sample_o).
  reflexivity.
Defined.

(** The card with [repeat_n] reports the free-space value and no
    duplicate. *)
Example repeat_n_errors :
  card_errors sample_b sample_i repeat_n sample_g sample_o
  = [ErrCenter ColN 31].
Proof. by vm_compute. Qed.

Example scenario_b_ex :
  pipeline scenario_b
  = Ok ([CardResult "1" sample_b sample_i
           [Some 31; Some 32; Some 33; Some 34; Some 35] sample_g sample_o
           false "Card 1: N center should be 0, got 33"], []).
Proof. by vm_compute. Qed.

Example scenario_c_ex :
  pipeline scenario_c
  = Ok ([CardResult "1" sample_b sample_i sample_n sample_g sample_o
           false "Valid but Duplicate of card(s) 2";
         CardResult "2" sample_b sample_i sample_n sample_g sample_o
           false "Valid but Duplicate of card(s) 1"],
        [["1"; "2"]]).
Proof. by vm_compute. Qed.

Example scenario_d_ex :
  pipeline scenario_d
  = Ok ([CardResult "1" short_b sample_i sample_n sample_g sample_o
           false "Card 1: B: expected 5 numbers, got 4"], []).
Proof. by vm_compute. Qed.

(** Scenario E: a row without a header line before it. *)
Example scenario_e_ex : parse_text_table data_line = Ok [].
Proof. by vm_compute. Qed.

(** * Further properties *)

(** ** Tokenizer *)

Section tokenizer_more.
Implicit Types (s a b d w cell : string) (fs : list string) (zs : list Z).

Lemma cell_fragments cell :
  fragments_of is_cell_delim cell
    (filter (λ p, p ≠ "") (Str.re_split is_cell_delim (Str.strip cell))).
Proof.
  destruct (strip_split cell) as (w1 & w2 & Hcell & Hw1 & Hw2).
  apply (all_impl _ _ _ space_is_cell_delim) in Hw1, Hw2.
  rewrite Hcell at 1. apply fragments_prepend; [done|].
  apply fragments_append; [done|]. apply re_split_fragments.
Qed.

(** The tokens of a cell, from any reading of it as fragments. *)
Lemma parse_numbers_fragments cell fs :
  fragments_of is_cell_delim cell fs →
  parse_numbers cell = Ok (token_of_fragment <$> fs).
Proof.
  intros Hfs. rewrite parse_numbers_ok. unfold tokens_of.
  by rewrite (fragments_of_unique _ _ _ _ (cell_fragments cell) Hfs).
Qed.

Lemma fragments_join a b d fa fb :
  d ≠ "" → Str.all is_cell_delim d = true →
  fragments_of is_cell_delim a fa → fragments_of is_cell_delim b fb →
  fragments_of is_cell_delim (a +:+ d +:+ b) (fa ++ fb).
Proof.
  intros Hd Hall Ha Hb.
  induction Ha as [ds Hds | ds f rest fs Hds Hf Hnf Hrest Hfs IH].
  - simpl. apply fragments_prepend; [done|]. by apply fragments_prepend.
  - rewrite !str_app_assoc. simpl. constructor; try done.
    destruct rest as [|c rest]; [|done]. rewrite str_app_nil_l.
    destruct d as [|c d]; [done|]. rewrite str_app_cons. simpl in *.
    by apply andb_true_iff in Hall as [? _].
Qed.
End tokenizer_more.

Section tokenizer_extras.
Implicit Types (s a b d w cell : string) (fs : list string) (zs : list Z).

(** X2: delimiters around a cell do not change its tokens. *)
Theorem parse_numbers_padding w1 cell w2 :
  Str.all is_cell_delim w1 = true →
  Str.all is_cell_delim w2 = true →
  parse_numbers (w1 +:+ cell +:+ w2) = parse_numbers cell.
Proof.
  intros Hw1 Hw2.
  rewrite (parse_numbers_fragments cell _ (cell_fragments cell)).
  apply parse_numbers_fragments, fragments_prepend; [done|].
  apply fragments_append; [done|]. apply cell_fragments.
Qed.

(** X3: two cells joined by a non-empty run of delimiters give the tokens of
    the first followed by the tokens of the second. *)
Theorem parse_numbers_join a d b :
  d ≠ "" →
  Str.all is_cell_delim d = true →
  ∃ ta tb,
    parse_numbers a = Ok ta ∧ parse_numbers b = Ok tb
    ∧ parse_numbers (a +:+ d +:+ b) = Ok (ta ++ tb).
Proof.
  intros Hd Hall. eexists _, _.
  split; [apply parse_numbers_ok|]. split; [apply parse_numbers_ok|].
  unfold tokens_of. rewrite <- fmap_app.
  apply parse_numbers_fragments, fragments_join; try done; apply cell_fragments.
Qed.

Lemma int_digits_acc (d : Decimal.uint) (p : positive) :
  Str.int_digits (Z.pos p) true (NilEmpty.string_of_uint d)
  = Some (Z.pos (Pos.of_uint_acc d p)).
Proof.
  revert p. induction d as [|d IH|d IH|d IH|d IH|d IH|d IH|d IH|d IH|d IH|d IH];
    intros p; [done|..]; cbn [NilEmpty.string_of_uint Str.int_digits];
    change (Str.is_digit _) with true; cbn iota;
    cbn [Pos.of_uint_acc]; rewrite <- IH; f_equal;
    unfold Str.digit_val;
    match goal with
    | |- context [Z.of_nat (nat_of_ascii ?a)] =>
        let v := eval vm_compute in (Z.of_nat (nat_of_ascii a)) in
        change (Z.of_nat (nat_of_ascii a)) with v
    end; lia.
Qed.

Lemma int_digits_uint (d : Decimal.uint) (prev : bool) :
  d ≠ Decimal.Nil ∨ prev = true →
  Str.int_digits 0 prev (NilEmpty.string_of_uint d)
  = Some (Z.of_N (Pos.of_uint d)).
Proof.
  revert prev.
  induction d as [|d IH|d IH|d IH|d IH|d IH|d IH|d IH|d IH|d IH|d IH];
    intros prev Hd; [by destruct Hd as [?| ->]|..];
    cbn [NilEmpty.string_of_uint Str.int_digits Pos.of_uint];
    change (Str.is_digit _) with true; cbn iota.
  - change (10 * 0 + Str.digit_val "0") with 0. apply IH. by right.
  - change (10 * 0 + Str.digit_val "1") with (Z.pos 1). by rewrite int_digits_acc.
  - change (10 * 0 + Str.digit_val "2") with (Z.pos 2). by rewrite int_digits_acc.
  - change (10 * 0 + Str.digit_val "3") with (Z.pos 3). by rewrite int_digits_acc.
  - change (10 * 0 + Str.digit_val "4") with (Z.pos 4). by rewrite int_digits_acc.
  - change (10 * 0 + Str.digit_val "5") with (Z.pos 5). by rewrite int_digits_acc.
  - change (10 * 0 + Str.digit_val "6") with (Z.pos 6). by rewrite int_digits_acc.
  - change (10 * 0 + Str.digit_val "7") with (Z.pos 7). by rewrite int_digits_acc.
  - change (10 * 0 + Str.digit_val "8") with (Z.pos 8). by rewrite int_digits_acc.
  - change (10 * 0 + Str.digit_val "9") with (Z.pos 9). by rewrite int_digits_acc.
Qed.

Lemma uint_digits (d : Decimal.uint) :
  Str.all Str.is_digit (NilEmpty.string_of_uint d) = true.
Proof. induction d; simpl; [done|..]; by rewrite IHd. Qed.

Lemma digit_plain c :
  Str.is_digit c = true →
  Str.is_space c = false ∧ is_cell_delim c = false
  ∧ Ascii.eqb c "+" = false ∧ Ascii.eqb c "-" = false.
Proof.
  destruct c as [[] [] [] [] [] [] [] []]; vm_compute; intros Hc;
    first [discriminate Hc | done].
Qed.

Lemma int_unsigned s :
  s ≠ "" → Str.all Str.is_digit s = true →
  Str.int s = match Str.int_digits 0 false s with
              | Some v => Ok v
              | None => Raise ValueError
              end.
Proof.
  intros Hne Hs. unfold Str.int. rewrite strip_plain.
  - destruct s as [|c s]; [done|]. simpl in Hs.
    apply andb_true_iff in Hs as [Hc _].
    destruct (digit_plain c Hc) as (_ & _ & Hplus & Hminus).
    assert (match String c s with
            | String "+"%char r => (1, r)
            | String "-"%char r => (-1, r)
            | _ => (1, String c s)
            end = (1, String c s)) as ->.
    { destruct c as [[] [] [] [] [] [] [] []]; try done. }
    destruct (Str.int_digits 0 false (String c s)) as [v|]; [|done].
    by rewrite Z.mul_1_l.
  - eapply all_impl; [|exact Hs]. intros c Hc.
    by destruct (digit_plain c Hc) as (-> & _).
Qed.

Lemma int_negative s :
  Str.all Str.is_digit s = true →
  Str.int (String "-" s) = match Str.int_digits 0 false s with
                           | Some v => Ok (- v)
                           | None => Raise ValueError
                           end.
Proof.
  intros Hs. unfold Str.int. rewrite strip_plain.
  - destruct (Str.int_digits 0 false s) as [v|]; [|done]. f_equal; lia.
  - simpl. eapply all_impl; [|exact Hs]. intros c Hc.
    by destruct (digit_plain c Hc) as (-> & _).
Qed.

Lemma string_of_uint_nonnil (d : Decimal.uint) :
  d ≠ Decimal.Nil →
  NilZero.string_of_uint d = NilEmpty.string_of_uint d
  ∧ NilEmpty.string_of_uint d ≠ "".
Proof. by destruct d. Qed.

(** [int] reads back what [str] writes. *)
Lemma int_of_int z : Str.int (Str.of_int z) = Ok z.
Proof.
  destruct z as [|p|p]; [done|..]; unfold Str.of_int; simpl;
    destruct (string_of_uint_nonnil _ (DecimalPos.Unsigned.to_uint_nonnil p)) as [-> Hne].
  - rewrite int_unsigned by (done || apply uint_digits).
    rewrite int_digits_uint by (left; apply DecimalPos.Unsigned.to_uint_nonnil).
    by rewrite DecimalPos.Unsigned.of_to.
  - rewrite int_negative by apply uint_digits.
    rewrite int_digits_uint by (left; apply DecimalPos.Unsigned.to_uint_nonnil).
    by rewrite DecimalPos.Unsigned.of_to.
Qed.

Lemma of_int_fragment z :
  Str.of_int z ≠ ""
  ∧ Str.all (λ c, negb (is_cell_delim c)) (Str.of_int z) = true.
Proof.
  assert (∀ u : Decimal.uint,
            Str.all (λ c, negb (is_cell_delim c))
              (NilEmpty.string_of_uint u) = true) as Hd.
  { intros u. eapply all_impl; [|apply uint_digits]. intros c Hc.
    by destruct (digit_plain c Hc) as (_ & -> & _). }
  destruct z as [|p|p]; [done|..]; unfold Str.of_int; simpl;
    destruct (string_of_uint_nonnil _ (DecimalPos.Unsigned.to_uint_nonnil p)) as [-> Hne].
  - done.
  - split; [done|]. simpl. apply Hd.
Qed.

Lemma join_fragments sep (fs : list string) :
  sep ≠ "" → Str.all is_cell_delim sep = true →
  Forall (λ f, f ≠ ""
               ∧ Str.all (λ c, negb (is_cell_delim c)) f = true) fs →
  fragments_of is_cell_delim (Str.join sep fs) fs.
Proof.
  intros Hsep Hall. induction 1 as [|f fs [Hf Hnf] Hfs IH]; [by constructor|].
  assert (∀ rest, starts_with_delim is_cell_delim (sep +:+ rest)) as Hstart.
  { intros rest. destruct sep as [|c sep]; [done|]. simpl in *.
    by apply andb_true_iff in Hall as [? _]. }
  destruct fs as [|f' fs].
  - simpl. rewrite <- (str_app_nil_r f) at 1.
    apply (frags_more is_cell_delim "" f "" []); try done.
  - change (Str.join sep (f :: f' :: fs))
      with ("" +:+ f +:+ sep +:+ Str.join sep (f' :: fs)).
    constructor; try done. by apply fragments_prepend.
Qed.

(** X1: the tokenizer reads back a list of integers written in decimal and
    joined by a separator made of commas and white space. *)
Theorem parse_numbers_of_ints sep zs :
  sep ≠ "" →
  Str.all is_cell_delim sep = true →
  parse_numbers (Str.join sep (Str.of_int <$> zs)) = Ok (Some <$> zs).
Proof.
  intros Hsep Hall.
  rewrite (parse_numbers_fragments _ (Str.of_int <$> zs)).
  - f_equal. rewrite <- list_fmap_compose. apply list_fmap_ext.
    intros _ z _. simpl. unfold token_of_fragment. by rewrite int_of_int.
  - apply join_fragments; [done|done|].
    apply Forall_fmap, Forall_forall. intros z _. apply of_int_fragment.
Qed.
End tokenizer_extras.

(** ** Card validator *)

Section validator_extras.
Implicit Types (c : column) (numbers b i n g o : list token)
  (errors : list error) (e : error) (z low high : Z).

Lemma card_error_cases b i n g o e :
  e ∈ card_errors b i n g o
  ↔ ∃ c numbers low high,
      (c, numbers, (low, high)) ∈ columns b i n g o
      ∧ ((length numbers ≠ 5%nat ∧ e = ErrLength c (length numbers))
         ∨ (length numbers = 5%nat ∧ explains c low high 0 numbers ∅ e)).
Proof.
  rewrite card_errors_elem. split.
  - intros ([[c numbers] [low high]] & Hin & He).
    exists c, numbers, low, high. split; [done|]. by apply column_errors_elem.
  - intros (c & numbers & low & high & Hin & He).
    exists (c, numbers, (low, high)). split; [done|]. by apply column_errors_elem.
Qed.

Lemma columns_cases b i n g o c numbers (low high : Z) :
  (c, numbers, (low, high)) ∈ columns b i n g o
  ↔ (c = ColB ∧ numbers = b ∧ low = 1 ∧ high = 15)
    ∨ (c = ColI ∧ numbers = i ∧ low = 16 ∧ high = 30)
    ∨ (c = ColN ∧ numbers = n ∧ low = 31 ∧ high = 45)
    ∨ (c = ColG ∧ numbers = g ∧ low = 46 ∧ high = 60)
    ∨ (c = ColO ∧ numbers = o ∧ low = 61 ∧ high = 75).
Proof.
  unfold columns. rewrite !elem_of_cons, elem_of_nil. naive_solver.
Qed.

(** X5: a center-mismatch error is reported exactly when the N column has five
    tokens and its third one is an integer other than 0. *)
Theorem center_error_iff b i n g o c z :
  ErrCenter c z ∈ card_errors b i n g o
  ↔ c = ColN ∧ length n = 5%nat ∧ n !! 2%nat = Some (Some z) ∧ z ≠ 0.
Proof.
  rewrite card_error_cases. split.
  - intros (c' & numbers & low & high & Hin & [[_ ?] | [Hlen He]]); [done|].
    destruct He as (j & tok & Hl & He). unfold token_explains in He.
    destruct tok as [z'|]; [|done].
    destruct (decide (is_center c' (0 + j))) as [[-> Hj]|Hc]; [|naive_solver].
    destruct He as [Hz [= -> ->]]. simpl in Hj. subst j.
    apply columns_cases in Hin. naive_solver.
  - intros (-> & Hlen & Hl & Hz). exists ColN, n, 31, 45.
    split; [apply columns_cases; naive_solver|]. right. split; [done|].
    exists 2%nat, (Some z). split; [done|]. unfold token_explains.
    by rewrite decide_True by done.
Qed.

(** X6: an out-of-range error is reported exactly for an integer outside the
    range of its column, at a position other than the free space of a
    five-token column, whether or not the value is also a duplicate. *)
Theorem range_error_iff b i n g o c z low high :
  ErrRange c z low high ∈ card_errors b i n g o
  ↔ ∃ numbers pos,
      (c, numbers, (low, high)) ∈ columns b i n g o
      ∧ length numbers = 5%nat
      ∧ numbers !! pos = Some (Some z)
      ∧ ¬ is_center c pos
      ∧ ¬ (low ≤ z ≤ high).
Proof.
  rewrite card_error_cases. split.
  - intros (c' & numbers & low' & high' & Hin & [[_ ?] | [Hlen He]]); [done|].
    destruct He as (j & tok & Hl & He). unfold token_explains in He.
    destruct tok as [z'|]; [|done].
    destruct (decide (is_center c' (0 + j))) as [Hc|Hc]; [naive_solver|].
    destruct He as [[Hz [= -> -> -> ->]] | [_ ?]]; [|done].
    by exists numbers, j.
  - intros (numbers & pos & Hin & Hlen & Hl & Hc & Hz).
    exists c, numbers, low, high. split; [done|]. right. split; [done|].
    exists pos, (Some z). split; [done|]. unfold token_explains.
    rewrite decide_False by done. by left.
Qed.

(** X7: a duplicate error is reported exactly for an integer that stands at
    two positions, neither of them the free space, of a five-token
    column. *)
Theorem duplicate_error_iff b i n g o c z :
  ErrDuplicate c z ∈ card_errors b i n g o
  ↔ ∃ numbers range p q,
      (c, numbers, range) ∈ columns b i n g o
      ∧ length numbers = 5%nat
      ∧ (p < q)%nat
      ∧ ¬ is_center c p ∧ ¬ is_center c q
      ∧ numbers !! p = Some (Some z) ∧ numbers !! q = Some (Some z).
Proof.
  rewrite card_error_cases. split.
  - intros (c' & numbers & low & high & Hin & [[_ ?] | [Hlen He]]); [done|].
    destruct He as (q & tok & Hl & He). unfold token_explains in He.
    destruct tok as [z'|]; [|done].
    destruct (decide (is_center c' (0 + q))) as [Hc|Hc]; [naive_solver|].
    destruct He as [[_ ?] | [[Hs | (p & Hp & Hcp & Hl')] [= -> ->]]]; [done| |].
    { by apply not_elem_of_empty in Hs. }
    by exists numbers, (low, high), p, q.
  - intros (numbers & [low high] & p & q & Hin & Hlen & Hpq & Hp & Hq & Hlp & Hlq).
    exists c, numbers, low, high. split; [done|]. right. split; [done|].
    exists q, (Some z). split; [done|]. unfold token_explains.
    rewrite decide_False by done. right. split; [|done].
    right. by exists p.
Qed.

(** X8: every marker of a five-token column is reported: the card has as many
    non-numeric errors for the column as the column has markers. *)
Theorem non_numeric_count b i n g o c numbers range :
  (c, numbers, range) ∈ columns b i n g o →
  length numbers = 5%nat →
  length (filter (λ e, e = ErrNonNumeric c) (card_errors b i n g o))
  = length (filter (λ t, t = None) numbers).
Proof.
  intros Hin Hlen.
  assert (filter (λ e, e = ErrNonNumeric c) (card_errors b i n g o)
          = filter (λ e, e = ErrNonNumeric c)
              (filter (λ e, err_column e = c) (card_errors b i n g o))) as ->.
  { rewrite list_filter_filter. apply list_filter_iff. naive_solver. }
  rewrite (card_errors_of_column _ _ _ _ _ _ _ _ Hin).
  unfold column_errors, check_column. destruct range as [low high].
  rewrite bool_decide_false by (by rewrite Hlen; intros []).
  rewrite walk_non_numeric. simpl. lia.
Qed.

(** X9: the errors of a card come column by column, B first and O last. *)
Theorem errors_in_column_order b i n g o :
  StronglySorted (λ e1 e2, col_rank (err_column e1) ≤ col_rank (err_column e2))%nat
    (card_errors b i n g o).
Proof.
  assert (∀ c numbers range,
            StronglySorted
              (λ e1 e2, col_rank (err_column e1) ≤ col_rank (err_column e2))%nat
              (column_errors (c, numbers, range))) as Hone.
  { intros c numbers range.
    assert (∀ e, e ∈ column_errors (c, numbers, range) → err_column e = c)
      as Hc by (intros e; apply column_errors_column).
    induction (column_errors (c, numbers, range)) as [|e l IH]; constructor.
    - apply IH. intros e' He'. apply Hc. by right.
    - apply Forall_forall. intros e' He'.
      rewrite (Hc e) by left. rewrite (Hc e') by (by right). done. }
  rewrite card_errors_columns.
  repeat (apply StronglySorted_app_2; [|apply Hone|]); [..|apply Hone];
    intros e1 e2 He1 He2; rewrite ?elem_of_app in He2;
    apply column_errors_column in He1;
    repeat match type of He2 with _ ∨ _ => destruct He2 as [He2|He2] end;
    apply column_errors_column in He2; rewrite He1, He2; simpl; lia.
Qed.

Lemma validate_card_valid card_id b i n g o :
  (validate_card card_id b i n g o).1 = true ↔ card_errors b i n g o = [].
Proof. unfold validate_card. by destruct (card_errors b i n g o). Qed.

(** X4: a card is valid exactly when each of its five columns is well formed:
    five pairwise distinct integer tokens in the range of the column, the
    free space of N holding 0 instead. *)
Theorem valid_iff_well_formed card_id b i n g o :
  (validate_card card_id b i n g o).1 = true
  ↔ ∀ c numbers low high,
      (c, numbers, (low, high)) ∈ columns b i n g o →
      column_ok c low high numbers.
Proof.
  rewrite validate_card_valid. split; [|apply columns_ok_no_errors].
  intros Hnone c numbers low high Hin.
  assert (∀ e, ¬ (length numbers = 5%nat ∧ explains c low high 0 numbers ∅ e)
               ∧ ¬ (length numbers ≠ 5%nat ∧ e = ErrLength c (length numbers)))
    as Hno.
  { intros e. split; intros He;
      (assert (e ∈ card_errors b i n g o) as Hin';
       [apply card_error_cases; exists c, numbers, low, high; tauto|]);
      rewrite Hnone in Hin'; by apply elem_of_nil in Hin'. }
  assert (length numbers = 5%nat) as Hlen.
  { destruct (decide (length numbers = 5%nat)) as [|Hne]; [done|].
    by destruct (proj2 (Hno (ErrLength c (length numbers)))). }
  assert (∀ pos tok, numbers !! pos = Some tok →
            ∃ z, tok = Some z
                 ∧ if decide (is_center c pos) then z = 0
                   else low ≤ z ≤ high) as Htok.
  { intros pos [z|] Hl.
    - exists z. split; [done|].
      destruct (decide (is_center c pos)) as [Hc|Hc].
      + destruct (decide (z = 0)) as [|Hz]; [done|].
        destruct (proj1 (Hno (ErrCenter c z))). split; [done|].
        exists pos, (Some z). split; [done|]. unfold token_explains.
        by rewrite decide_True.
      + destruct (decide (low ≤ z ≤ high)) as [|Hz]; [done|].
        destruct (proj1 (Hno (ErrRange c z low high))). split; [done|].
        exists pos, (Some z). split; [done|]. unfold token_explains.
        rewrite decide_False by done. by left.
    - destruct (proj1 (Hno (ErrNonNumeric c))). split; [done|].
      by exists pos, None. }
  split_and!; [done| |done].
  assert (∀ p q tok, (p < q)%nat →
            numbers !! p = Some tok → numbers !! q = Some tok → False) as Hlt.
  { intros p q tok Hpq Hp Hq.
    destruct (Htok _ _ Hp) as (z & -> & Hzp).
    destruct (Htok _ _ Hq) as (z' & [= <-] & Hzq).
    apply columns_cases in Hin.
    destruct (decide (is_center c p)) as [[Hc Hp2]|Hcp],
             (decide (is_center c q)) as [[Hc' Hq2]|Hcq].
    - lia.
    - assert (low = 31) by naive_solver. lia.
    - assert (low = 31) by naive_solver. lia.
    - destruct (proj1 (Hno (ErrDuplicate c z))). split; [done|].
      exists q, (Some z). split; [done|]. unfold token_explains.
      rewrite decide_False by done. right. split; [|done]. right. by exists p. }
  apply NoDup_alt. intros p q tok Hp Hq.
  destruct (Nat.lt_trichotomy p q) as [?|[?|?]]; [|done|]; exfalso; eauto.
Qed.
End validator_extras.

(** ** Table parser *)

Section parser_extras.
Implicit Types (line l text : string) (st : parse_state)
  (lines : list string) (c : card).

Lemma latch_length lines st :
  (length (foldl latch_step st lines).2 ≤ length st.2 + length lines)%nat.
Proof.
  revert st. induction lines as [|l lines IH]; intros st; simpl; [lia|].
  etrans; [apply IH|]. unfold latch_step.
  destruct (is_header l); simpl; [lia|].
  destruct st.1; simpl; [|lia].
  rewrite length_app. destruct (row_of_line l); simpl; lia.
Qed.

(** X10: the parser never raises, and it returns fewer records than the text
    has non-blank lines (none when the text has no such line). *)
Theorem parse_text_table_total text :
  ∃ cards,
    parse_text_table text = Ok cards
    ∧ (length cards ≤ pred (length (table_lines text)))%nat.
Proof.
  eexists. split; [apply parse_text_table_ok|].
  destruct (table_lines text) as [|l lines]; [done|]. simpl.
  etrans; [apply latch_length|]. unfold latch_step. simpl.
  by destruct (is_header l).
Qed.

Lemma latch_rows lines st c :
  c ∈ (foldl latch_step st lines).2 →
  c ∈ st.2
  ∨ ∃ l, l ∈ lines ∧ is_header l = false ∧ row_of_line l = Some c.
Proof.
  revert st. induction lines as [|l lines IH]; intros st Hc; [by left|].
  simpl in Hc. apply IH in Hc as [Hc | (l' & Hl' & Hh & Hrow)].
  - unfold latch_step in Hc. destruct (is_header l) eqn:Hh; [by left|].
    destruct st.1; [|by left]. simpl in Hc.
    apply elem_of_app in Hc as [Hc|Hc]; [by left|]. right. exists l.
    destruct (row_of_line l) as [c'|]; simpl in Hc.
    + apply list_elem_of_singleton in Hc as ->. split_and!; [left|done|done].
    + by apply elem_of_nil in Hc.
  - right. exists l'. split_and!; [by right|done|done].
Qed.

Lemma header_of_card_word (f : string) (a : ascii) (r : string) :
  is_header (f +:+ " ") = true → Str.is_space a = true →
  is_header (f +:+ String a r) = true.
Proof.
  intros Hf Hc.
  destruct f as [|c1 [|c2 [|c3 [|c4 [|c5 f]]]]]; try done.
  - rewrite !str_app_cons, str_app_nil_l in *. simpl in *.
    rewrite Hc. by rewrite !andb_true_r in *.
Qed.

(** X12: the identifier of a parsed card is not empty, holds no white space,
    and is not the word [card] in any letter case. *)
Theorem parsed_identifier text cards c :
  parse_text_table text = Ok cards →
  c ∈ cards →
  card_id c ≠ ""
  ∧ Str.all (λ a, negb (Str.is_space a)) (card_id c) = true
  ∧ is_header (card_id c +:+ " ") = false.
Proof.
  rewrite parse_text_table_ok. intros [= <-] Hc.
  apply latch_rows in Hc as [Hc | (l & Hl & Hh & Hrow)];
    [by apply elem_of_nil in Hc|].
  pose proof (table_line_fields _ _ Hl) as Hfr.
  unfold table_lines in Hl.
  apply list_elem_of_filter in Hl as [Hne (x & -> & _)%list_elem_of_fmap].
  unfold row_of_line in Hrow.
  destruct (Str.re_split Str.is_space (Str.strip x))
    as [|f0 [|f1 [|f2 [|f3 [|f4 [|f5 extra]]]]]]; try done.
  injection Hrow as <-. simpl.
  inversion Hfr as [|ds f rest fs Hds Hf Hnf Hrest Hfs Heq Hfs']. subst f fs.
  split_and!; [done|done|].
  destruct (is_header (f0 +:+ " ")) eqn:Hword; [exfalso|done].
  destruct (Str.strip x) as [|a s] eqn:Hx; [done|].
  destruct (strip_head _ _ _ Hx) as [Ha _].
  destruct ds as [|a' ds].
  - destruct rest as [|a' rest].
    + by apply fragments_all_delim in Hfs.
    + rewrite str_app_nil_l in Heq. simpl in Hrest.
      rewrite <- Heq, (header_of_card_word _ _ _ Hword Hrest) in Hh. done.
  - rewrite str_app_cons in Heq. injection Heq as -> _.
    simpl in Hds. apply andb_true_iff in Hds as [Hds _]. congruence.
Qed.
End parser_extras.

(** ** Duplicate pass *)

Section filter_counts.
Context {A : Type} (P : A → Prop) `{!∀ x, Decision (P x)}.
Implicit Types (l : list A).

Lemma filter_two_hits l :
  (1 < length (filter P l))%nat
  ↔ ∃ p q x y, (p < q)%nat ∧ l !! p = Some x ∧ l !! q = Some y ∧ P x ∧ P y.
Proof.
  induction l as [|a l IH].
  - split; [simpl; lia|]. by intros (p & q & x & y & _ & ? & _).
  - rewrite filter_cons. destruct (decide (P a)) as [Ha|Ha]; simpl.
    + split.
      * intros Hlen. destruct (filter P l) as [|y k] eqn:Hf; [simpl in *; lia|].
        assert (y ∈ filter P l) as Hy by (rewrite Hf; left).
        apply list_elem_of_filter in Hy as [HPy Hy].
        apply list_elem_of_lookup in Hy as [q Hq].
        exists 0%nat, (S q), a, y. split_and!; [lia|done..].
      * intros (p & q & x & y & Hpq & Hp & Hq & Hx & Hy).
        destruct q as [|q]; [lia|]. simpl in Hq.
        assert (y ∈ filter P l) as Hin.
        { apply list_elem_of_filter. split; [done|].
          by eapply list_elem_of_lookup_2. }
        destruct (filter P l); [by apply elem_of_nil in Hin|simpl; lia].
    + rewrite IH. split.
      * intros (p & q & x & y & ? & ? & ? & ? & ?).
        exists (S p), (S q), x, y. split_and!; [lia|done..].
      * intros (p & q & x & y & Hpq & Hp & Hq & Hx & Hy).
        destruct q as [|q]; [lia|]. destruct p as [|p].
        { simpl in Hp. injection Hp as ->. done. }
        exists p, q, x, y. split_and!; [lia|done..].
Qed.

(** More than one hit, seen from one of them: there is another. *)
Lemma filter_other_hit l p x :
  l !! p = Some x → P x →
  (1 < length (filter P l))%nat
  ↔ ∃ q y, q ≠ p ∧ l !! q = Some y ∧ P y.
Proof.
  intros Hp Hx. rewrite filter_two_hits. split.
  - intros (p' & q' & x' & y' & Hpq & Hp' & Hq' & Hx' & Hy').
    destruct (decide (p' = p)) as [->|Hne].
    + exists q', y'. split_and!; [lia|done..].
    + exists p', x'. by split_and!.
  - intros (q & y & Hne & Hq & Hy).
    destruct (Nat.lt_trichotomy p q) as [?|[?|?]]; [|done|].
    + by exists p, q, x, y.
    + by exists q, p, y, x.
Qed.
End filter_counts.

Lemma filter_length_pointwise {A B} (P : A → Prop) (Q : B → Prop)
    `{!∀ x, Decision (P x)} `{!∀ y, Decision (Q y)}
    (l1 : list A) (l2 : list B) :
  length l1 = length l2 →
  (∀ i x y, l1 !! i = Some x → l2 !! i = Some y → P x ↔ Q y) →
  length (filter P l1) = length (filter Q l2).
Proof.
  revert l2. induction l1 as [|x l1 IH]; intros [|y l2] Hlen Hpq; try done.
  rewrite !filter_cons.
  assert (length (filter P l1) = length (filter Q l2)) as Hrec.
  { apply IH; [by injection Hlen|]. intros i. apply (Hpq (S i)). }
  destruct (decide (P x)) as [HP|HP].
  - rewrite decide_True by (by apply (Hpq 0%nat x y)). simpl. by rewrite Hrec.
  - rewrite decide_False; [done|]. intros HQ. by apply HP, (Hpq 0%nat x y).
Qed.

Lemma NoDup_fmap_counts {A B} `{EqDecision B} (f : A → B) (l : list A) :
  NoDup (f <$> l)
  ↔ ∀ k, (length (filter (λ x, f x = k) l) ≤ 1)%nat.
Proof.
  split.
  - intros Hnd k.
    destruct (decide (1 < length (filter (λ x, f x = k) l))%nat) as [Hlen|];
      [|lia].
    apply filter_two_hits in Hlen as (p & q & x & y & Hpq & Hp & Hq & Hx & Hy).
    assert (p = q); [|lia].
    apply (NoDup_lookup (f <$> l) p q k Hnd);
      rewrite list_lookup_fmap; [by rewrite Hp; simpl; f_equal
                                |by rewrite Hq; simpl; f_equal].
  - intros Hcount. apply NoDup_alt. intros p q k Hp Hq.
    rewrite list_lookup_fmap in Hp, Hq.
    destruct (l !! p) as [x|] eqn:Hlp; [|done].
    destruct (l !! q) as [y|] eqn:Hlq; [|done].
    injection Hp as Hx. injection Hq as Hy.
    destruct (decide (p = q)) as [|Hne]; [done|]. exfalso.
    specialize (Hcount k).
    assert (1 < length (filter (λ x, f x = k) l))%nat; [|lia].
    apply (filter_other_hit _ l p x Hlp Hx). by exists q, y.
Qed.

Section duplicate_extras.
Implicit Types (rs : list card_result) (r : card_result) (fp : fingerprint)
  (cid : string) (idx : nat).

Lemma marked_results_length rs :
  length (apply_updates rs (concat (group_updates <$> grouped (entries 0 rs))))
  = length rs.
Proof. apply apply_updates_length. Qed.

Lemma mark_keeps r msg :
  res_id (mark r msg) = res_id r
  ∧ fingerprint_of (mark r msg) = fingerprint_of r
  ∧ res_valid (mark r msg) = false.
Proof. unfold mark. by destruct (res_valid r). Qed.

(** X13: the duplicate pass never raises; it keeps the number and the order of
    the cards, and the identifier and the five columns of each. *)
Theorem mark_duplicates_keeps rs :
  ∃ results groups,
    mark_duplicates rs = Ok (results, groups)
    ∧ length results = length rs
    ∧ ∀ idx r, rs !! idx = Some r →
        ∃ r', results !! idx = Some r'
              ∧ res_id r' = res_id r
              ∧ fingerprint_of r' = fingerprint_of r.
Proof.
  eexists _, _. split; [apply mark_duplicates_ok|].
  split; [apply marked_results_length|].
  intros idx r Hr. rewrite (marked_lookup _ _ _ Hr). eexists. split; [done|].
  destruct (1 <? _)%nat; [|done].
  by destruct (mark_keeps r (duplicate_msg
                              (filed (entries 0 rs) (fingerprint_of r))
                              (res_id r))) as (? & ? & _).
Qed.

(** X14: a card whose content no other card of the batch has comes out of the
    pass as it went in. *)
Theorem unique_card_untouched rs idx r :
  rs !! idx = Some r →
  (∀ j r', rs !! j = Some r' →
     fingerprint_of r' = fingerprint_of r → j = idx) →
  ∃ results groups,
    mark_duplicates rs = Ok (results, groups) ∧ results !! idx = Some r.
Proof.
  intros Hr Huniq. eexists _, _. split; [apply mark_duplicates_ok|].
  rewrite (marked_lookup _ _ _ Hr), filed_entries_length.
  destruct (Nat.ltb_spec 1
              (length (filter (λ r', fingerprint_of r' = fingerprint_of r) rs)))
    as [Hlen|]; [|done].
  apply (filter_other_hit (λ r', fingerprint_of r' = fingerprint_of r) rs idx r
             Hr eq_refl) in Hlen
    as (q & y & Hne & Hq & Hy).
  by destruct Hne; apply (Huniq q y).
Qed.

(** X15: a card is valid after the pass exactly when it was valid before and
    no other card of the batch has its content. *)
Theorem valid_after_pass rs idx r :
  rs !! idx = Some r →
  ∃ results groups r',
    mark_duplicates rs = Ok (results, groups)
    ∧ results !! idx = Some r'
    ∧ (res_valid r' = true
       ↔ res_valid r = true
         ∧ ∀ j r2, rs !! j = Some r2 →
             fingerprint_of r2 = fingerprint_of r → j = idx).
Proof.
  intros Hr. eexists _, _, _. split; [apply mark_duplicates_ok|].
  split; [apply (marked_lookup _ _ _ Hr)|].
  rewrite filed_entries_length.
  destruct (Nat.ltb_spec 1
              (length (filter (λ r', fingerprint_of r' = fingerprint_of r) rs)))
    as [Hlen|Hlen].
  - destruct (mark_keeps r (duplicate_msg
                              (filed (entries 0 rs) (fingerprint_of r))
                              (res_id r))) as (_ & _ & ->).
    split; [done|]. intros [_ Huniq].
    apply (filter_other_hit (λ r', fingerprint_of r' = fingerprint_of r) rs idx r
             Hr eq_refl) in Hlen
      as (q & y & Hne & Hq & Hy).
    by destruct Hne; apply (Huniq q y).
  - split; [|by intros [? _]]. intros Hv. split; [done|].
    intros j r2 Hj Hfp. destruct (decide (j = idx)) as [|Hne]; [done|].
    assert (1 < length (filter (λ r', fingerprint_of r' = fingerprint_of r) rs))%nat;
      [|lia].
    apply (filter_other_hit (λ r', fingerprint_of r' = fingerprint_of r) rs idx r
             Hr eq_refl). by exists j, r2.
Qed.

(** X16: every reported group names at least two cards. *)
Theorem duplicate_groups_size rs results groups g :
  mark_duplicates rs = Ok (results, groups) →
  g ∈ groups → (2 ≤ length g)%nat.
Proof.
  rewrite mark_duplicates_ok. intros [= _ <-] Hg.
  unfold grouped in Hg. rewrite group_reports in Hg.
  apply list_elem_of_fmap in Hg as (fp & -> & Hfp).
  apply list_elem_of_filter in Hfp as [Hlen _].
  rewrite length_fmap. lia.
Qed.

(** X17: no group is reported exactly when the cards of the batch have
    pairwise different contents. *)
Theorem no_groups_iff_distinct rs results groups :
  mark_duplicates rs = Ok (results, groups) →
  groups = [] ↔ NoDup (fingerprint_of <$> rs).
Proof.
  rewrite mark_duplicates_ok. intros [= _ <-].
  unfold grouped. rewrite group_reports, entries_keys, NoDup_fmap_counts.
  split.
  - intros Hnil%fmap_nil_inv fp.
    destruct (decide (1 < length (filter (λ r, fingerprint_of r = fp) rs))%nat)
      as [Hlen|]; [|lia]. exfalso.
    assert (fp ∈ filter
              (λ fp, (1 < length (filter (λ r, fingerprint_of r = fp) rs))%nat)
              (first_occ (fingerprint_of <$> rs))) as Hin.
    { apply list_elem_of_filter. split; [done|]. apply elem_of_first_occ.
      destruct (filter (λ r, fingerprint_of r = fp) rs) as [|r k] eqn:Hf;
        [simpl in Hlen; lia|].
      assert (r ∈ filter (λ r, fingerprint_of r = fp) rs) as Hr
        by (rewrite Hf; left).
      apply list_elem_of_filter in Hr as [<- Hr].
      apply list_elem_of_fmap. by exists r. }
    rewrite Hnil in Hin. by apply elem_of_nil in Hin.
  - intros Hcount. rewrite filter_none; [done|].
    intros fp _. specialize (Hcount fp). lia.
Qed.

(** X19: when no other card of its group carries its identifier, a member's
    message lists the identifiers of the other members of the group, in
    batch order. *)
Theorem other_members_listed rs idx r :
  rs !! idx = Some r →
  (1 < length (filter (λ r', fingerprint_of r' = fingerprint_of r) rs))%nat →
  (∀ j r', j ≠ idx → rs !! j = Some r' →
     fingerprint_of r' = fingerprint_of r → res_id r' ≠ res_id r) →
  ∃ results groups r',
    mark_duplicates rs = Ok (results, groups)
    ∧ results !! idx = Some r'
    ∧ res_msg r'
      = (if res_valid r then "Valid but " else res_msg r +:+ "; ")
        +:+ "Duplicate of card(s) "
        +:+ Str.join ", "
              (res_id <$> filter (λ r', fingerprint_of r' = fingerprint_of r)
                            (delete idx rs)).
Proof.
  intros Hr Hlen Hids. eexists _, _, _. split; [apply mark_duplicates_ok|].
  split; [apply (marked_lookup _ _ _ Hr)|].
  rewrite filed_entries_length. apply Nat.ltb_lt in Hlen. rewrite Hlen.
  unfold mark, duplicate_msg.
  rewrite other_ids_filed, (other_ids_when_distinct _ _ _ Hr Hids).
  destruct (res_valid r); simpl; [done|]. by rewrite !str_app_assoc.
Qed.
End duplicate_extras.

Section reported_groups.
Implicit Types (rs : list card_result) (r : card_result) (fp : fingerprint).

(** X18: a card is named in a reported group, the list of the identifiers of
    all cards with its content, exactly when another card of the batch has
    that content. *)
Theorem shared_content_reported rs results groups idx r :
  mark_duplicates rs = Ok (results, groups) →
  rs !! idx = Some r →
  (res_id <$> filter (λ r', fingerprint_of r' = fingerprint_of r) rs) ∈ groups
  ↔ ∃ j r2, j ≠ idx ∧ rs !! j = Some r2
            ∧ fingerprint_of r2 = fingerprint_of r.
Proof.
  rewrite mark_duplicates_ok. intros [= _ <-] Hr.
  unfold grouped. rewrite group_reports, entries_keys.
  rewrite <- (filter_other_hit (λ r', fingerprint_of r' = fingerprint_of r)
                rs idx r Hr eq_refl).
  split.
  - intros (fp & Heq & Hfp)%list_elem_of_fmap.
    apply list_elem_of_filter in Hfp as [Hlen _].
    apply (f_equal length) in Heq. rewrite !length_fmap in Heq. lia.
  - intros Hlen. apply list_elem_of_fmap. exists (fingerprint_of r).
    split; [done|]. apply list_elem_of_filter. split; [done|].
    apply elem_of_first_occ, list_elem_of_fmap. exists r.
    split; [done|]. by eapply list_elem_of_lookup_2.
Qed.
End reported_groups.

(** ** Handler *)

Section handler.
Implicit Types (text : string) (cards : list card) (c : card)
  (rs : list card_result) (r : card_result).

Lemma filter_length_split {A} (P : A → Prop) `{!∀ x, Decision (P x)}
    (l : list A) :
  (length (filter P l) + length (filter (λ x, ¬ P x) l) = length l)%nat.
Proof.
  induction l as [|x l IH]; [done|]. rewrite !filter_cons.
  destruct (decide (P x)).
  - rewrite decide_False by tauto. simpl. lia.
  - rewrite decide_True by done. simpl. lia.
Qed.

Lemma filter_fmap_length {A B} (f : A → B) (P : B → Prop)
    `{!∀ y, Decision (P y)} (l : list A) :
  length (filter P (f <$> l)) = length (filter (λ x, P (f x)) l).
Proof.
  induction l as [|x l IH]; [done|]. rewrite fmap_cons, !filter_cons.
  destruct (decide (P (f x))); simpl; by rewrite IH.
Qed.

Lemma result_of_card_fields c :
  res_id (result_of_card c) = card_id c
  ∧ fingerprint_of (result_of_card c) = card_content c
  ∧ res_valid (result_of_card c) = card_valid c.
Proof.
  unfold result_of_card, card_valid.
  by destruct (validate_card (card_id c) (card_b c) (card_i c) (card_n c)
                 (card_g c) (card_o c)).
Qed.

Lemma validate_text_unfold text :
  validate_text text
  = match (foldl latch_step (false, []) (table_lines text)).2 with
    | [] => Ok (Flash no_card_notice)
    | c :: cards =>
        let results :=
          apply_updates (result_of_card <$> c :: cards)
            (concat (group_updates
                       <$> grouped (entries 0 (result_of_card <$> c :: cards))))
        in
        Ok (Render
              (res_msg <$> filter (λ r, res_valid r ≠ true) results)
              (length (res_msg <$> filter (λ r, res_valid r = true) results))
              (concat (group_report
                         <$> grouped
                               (entries 0 (result_of_card <$> c :: cards))))
              text)
    end.
Proof.
  unfold validate_text. rewrite parse_text_table_ok. cbn [mbind result_bind].
  destruct (foldl latch_step (false, []) (table_lines text)).2 as [|c cards];
    [done|].
  unfold validate. by rewrite mark_duplicates_ok.
Qed.

(** X20: the handler never raises on a text: it answers with the notice when
    no card was parsed, and otherwise with the text it was given and with
    counts that add up to the number of parsed cards. *)
Theorem validate_text_total text :
  ∃ cards,
    parse_text_table text = Ok cards
    ∧ match cards with
      | [] => validate_text text = Ok (Flash no_card_notice)
      | _ :: _ =>
          ∃ invalid_msgs valid_count groups,
            validate_text text
            = Ok (Render invalid_msgs valid_count groups text)
            ∧ (valid_count + length invalid_msgs = length cards)%nat
      end.
Proof.
  eexists. split; [apply parse_text_table_ok|].
  rewrite validate_text_unfold.
  destruct (foldl latch_step (false, []) (table_lines text)).2 as [|c cards];
    [done|].
  cbv zeta. eexists _, _, _. split; [done|].
  rewrite !length_fmap, filter_length_split, apply_updates_length.
  by rewrite length_fmap.
Qed.

(** X21: the count of valid cards the handler shows is the number of parsed
    cards that [validate_card] accepts and whose content no other parsed
    card has. *)
Theorem valid_count_meaning text cards invalid_msgs valid_count groups t :
  parse_text_table text = Ok cards →
  validate_text text = Ok (Render invalid_msgs valid_count groups t) →
  valid_count
  = length (filter
              (λ c, card_valid c = true
                    ∧ (length (filter (λ c', card_content c' = card_content c)
                                 cards) ≤ 1)%nat)
              cards).
Proof.
  rewrite parse_text_table_ok, validate_text_unfold. intros [= Hcards].
  rewrite Hcards. destruct cards as [|c0 cards0]; [done|].
  set (cards := c0 :: cards0). set (rs := result_of_card <$> cards).
  cbv zeta. intros Heq.
  match type of Heq with
  | Ok (Render _ ?k _ _) = _ => assert (valid_count = k) as -> by congruence
  end.
  clear Heq. rewrite length_fmap.
  apply filter_length_pointwise.
  { rewrite apply_updates_length. unfold rs. by rewrite length_fmap. }
  intros idx r' c Hr' Hc.
  assert (rs !! idx = Some (result_of_card c)) as Hr
    by (unfold rs; by rewrite list_lookup_fmap, Hc).
  rewrite (marked_lookup _ _ _ Hr) in Hr'.
  match type of Hr' with Some ?x = _ => assert (r' = x) as -> by congruence end.
  clear Hr'.
  destruct (result_of_card_fields c) as (_ & Hfp & Hv).
  rewrite filed_entries_length. unfold rs at 1.
  rewrite filter_fmap_length, Hfp.
  assert (length (filter (λ x, fingerprint_of (result_of_card x)
                               = card_content c) cards)
          = length (filter (λ c', card_content c' = card_content c) cards))
    as ->.
  { f_equal. apply list_filter_iff. intros c'.
    by destruct (result_of_card_fields c') as (_ & -> & _). }
  destruct (Nat.ltb_spec 1
              (length (filter (λ c', card_content c' = card_content c) cards)))
    as [Hlen|Hlen].
  - destruct (mark_keeps (result_of_card c)
                (duplicate_msg (filed (entries 0 rs) (card_content c))
                   (res_id (result_of_card c)))) as (_ & _ & ->).
    split; [done|]. intros [_ ?]. lia.
  - rewrite Hv. split; [by intros ?|by intros [? _]].
Qed.
End handler.

(** ** The further properties at the sample inputs *)

Lemma parse_numbers_of_ints_witness :
  "," ≠ ""
  ∧ Str.all is_cell_delim "," = true
  ∧ parse_numbers (Str.join "," (Str.of_int <$> [15; 2; 7; 14; 11]))
    = Ok (Some <$> [15; 2; 7; 14; 11]).
Proof.
  split; [done|]. split; [reflexivity|].
  apply (parse_numbers_of_ints "," [15; 2; 7; 14; 11]); [done|reflexivity].
Defined.

Lemma parse_numbers_padding_witness :
  Str.all is_cell_delim " ," = true
  ∧ Str.all is_cell_delim ", " = true
  ∧ parse_numbers (" ," +:+ "1,2" +:+ ", ") = parse_numbers "1,2".
Proof.
  split; [reflexivity|]. split; [reflexivity|].
  apply (parse_numbers_padding " ," "1,2" ", "); reflexivity.
Defined.

Lemma parse_numbers_join_witness :
  ", " ≠ ""
  ∧ Str.all is_cell_delim ", " = true
  ∧ ∃ ta tb,
      parse_numbers "1,2" = Ok ta ∧ parse_numbers "x 4" = Ok tb
      ∧ parse_numbers ("1,2" +:+ ", " +:+ "x 4") = Ok (ta ++ tb).
Proof.
  split; [done|]. split; [reflexivity|].
  apply (parse_numbers_join "1,2" ", " "x 4"); [done|reflexivity].
Defined.

Lemma non_numeric_count_witness :
  (ColN, marker_n, (31, 45))
    ∈ columns sample_b sample_i marker_n sample_g sample_o
  ∧ length marker_n = 5%nat
  ∧ length (filter (λ e, e = ErrNonNumeric ColN)
              (card_errors sample_b sample_i marker_n sample_g sample_o))
    = length (filter (λ t, t = None) marker_n).
Proof.
  assert ((ColN, marker_n, (31, 45))
            ∈ columns sample_b sample_i marker_n sample_g sample_o) as Hin.
  { unfold columns. rewrite !elem_of_cons. tauto. }
  split; [exact Hin|]. split; [reflexivity|].
  apply (non_numeric_count sample_b sample_i marker_n sample_g sample_o
           ColN marker_n (31, 45) Hin). reflexivity.
Defined.

Lemma no_header_witness :
  (∀ l, l ∈ table_lines data_line → is_header l = false)
  ∧ parse_text_table data_line = Ok [].
Proof.
  assert (∀ l, l ∈ table_lines data_line → is_header l = false) as Hno.
  { intros l Hl.
    assert (table_lines data_line = [data_line]) as Heq by by vm_compute.
    rewrite Heq in Hl. by apply list_elem_of_singleton in Hl as ->. }
  split; [exact Hno|]. apply (no_header_no_rows data_line Hno).
Defined.

Lemma parsed_identifier_witness :
  parse_text_table scenario_a = Ok [sample_card "1"]
  ∧ sample_card "1" ∈ [sample_card "1"]
  ∧ card_id (sample_card "1") ≠ ""
  ∧ Str.all (λ a, negb (Str.is_space a)) (card_id (sample_card "1")) = true
  ∧ is_header (card_id (sample_card "1") +:+ " ") = false.
Proof.
  assert (parse_text_table scenario_a = Ok [sample_card "1"]) as Hp
    by by vm_compute.
  assert (sample_card "1" ∈ [sample_card "1"]) as Hin by left.
  split; [exact Hp|]. split; [exact Hin|].
  apply (parsed_identifier scenario_a [sample_card "1"] (sample_card "1") Hp Hin).
Defined.

Lemma unique_card_witness :
  three_results !! 2%nat
  = Some (CardResult "3" short_b sample_i sample_n sample_g sample_o
            false "Card 3: B: expected 5 numbers, got 4")
  ∧ ∃ results groups,
      mark_duplicates three_results = Ok (results, groups)
      ∧ results !! 2%nat
        = Some (CardResult "3" short_b sample_i sample_n sample_g sample_o
                  false "Card 3: B: expected 5 numbers, got 4").
Proof.
  split; [reflexivity|].
  apply (unique_card_untouched three_results 2); [reflexivity|].
  intros j r' Hj Hfp.
  do 3 (destruct j as [|j]; [injection Hj as <-; try done|]); [..|done];
    by vm_compute in Hfp.
Defined.

Lemma valid_after_pass_witness :
  twin_results !! 0%nat
  = Some (CardResult "1" sample_b sample_i sample_n sample_g sample_o
            true "Card 1: Valid")
  ∧ ∃ results groups r',
      mark_duplicates twin_results = Ok (results, groups)
      ∧ results !! 0%nat = Some r'
      ∧ (res_valid r' = true
         ↔ res_valid (CardResult "1" sample_b sample_i sample_n sample_g
                        sample_o true "Card 1: Valid") = true
           ∧ ∀ j r2, twin_results !! j = Some r2 →
               fingerprint_of r2
               = fingerprint_of (CardResult "1" sample_b sample_i sample_n
                                   sample_g sample_o true "Card 1: Valid") →
               j = 0%nat).
Proof.
  split; [reflexivity|].
  apply (valid_after_pass twin_results 0). reflexivity.
Defined.

Lemma duplicate_groups_size_witness :
  mark_duplicates twin_results = Ok (twin_results_marked, [["1"; "2"]])
  ∧ ["1"; "2"] ∈ [["1"; "2"]]
  ∧ (2 ≤ length ["1"; "2"])%nat.
Proof.
  assert (mark_duplicates twin_results
          = Ok (twin_results_marked, [["1"; "2"]])) as Hm by by vm_compute.
  assert (["1"; "2"] ∈ [["1"; "2"]]) as Hin by left.
  split; [exact Hm|]. split; [exact Hin|].
  apply (duplicate_groups_size twin_results twin_results_marked
           [["1"; "2"]] ["1"; "2"] Hm Hin).
Defined.

Lemma no_groups_witness :
  mark_duplicates twin_results = Ok (twin_results_marked, [["1"; "2"]])
  ∧ ([["1"; "2"]] = [] ↔ NoDup (fingerprint_of <$> twin_results)).
Proof.
  assert (mark_duplicates twin_results
          = Ok (twin_results_marked, [["1"; "2"]])) as Hm by by vm_compute.
  split; [exact Hm|].
  apply (no_groups_iff_distinct twin_results twin_results_marked
           [["1"; "2"]] Hm).
Defined.

Lemma other_members_witness :
  twin_results !! 0%nat
  = Some (CardResult "1" sample_b sample_i sample_n sample_g sample_o
            true "Card 1: Valid")
  ∧ ∃ results groups r',
      mark_duplicates twin_results = Ok (results, groups)
      ∧ results !! 0%nat = Some r'
      ∧ res_msg r' = "Valid but Duplicate of card(s) 2".
Proof.
  split; [reflexivity|].
  destruct (other_members_listed twin_results 0
              (CardResult "1" sample_b sample_i sample_n sample_g sample_o
                 true "Card 1: Valid"))
    as (results & groups & r' & Hm & Hl & Hmsg).
  - reflexivity.
  - vm_compute. lia.
  - intros j r2 Hj Hl _.
    do 2 (destruct j as [|j]; [try done; injection Hl as <-; done|]). done.
  - exists results, groups, r'. split; [exact Hm|]. split; [exact Hl|].
    rewrite Hmsg. by vm_compute.
Defined.

Lemma valid_count_witness :
  parse_text_table scenario_c = Ok [sample_card "1"; sample_card "2"]
  ∧ validate_text scenario_c
    = Ok (Render ["Valid but Duplicate of card(s) 2";
                  "Valid but Duplicate of card(s) 1"]
                 0 [["1"; "2"]] scenario_c)
  ∧ 0%nat
    = length (filter
                (λ c, card_valid c = true
                      ∧ (length (filter
                                   (λ c', card_content c' = card_content c)
                                   [sample_card "1"; sample_card "2"])
                         ≤ 1)%nat)
                [sample_card "1"; sample_card "2"]).
Proof.
  assert (parse_text_table scenario_c
          = Ok [sample_card "1"; sample_card "2"]) as Hp by by vm_compute.
  assert (validate_text scenario_c
          = Ok (Render ["Valid but Duplicate of card(s) 2";
                        "Valid but Duplicate of card(s) 1"]
                       0 [["1"; "2"]] scenario_c)) as Hv by by vm_compute.
  split; [exact Hp|]. split; [exact Hv|].
  apply (valid_count_meaning scenario_c _ _ _ _ _ Hp Hv).
Defined.

Lemma shared_content_witness :
  mark_duplicates twin_results = Ok (twin_results_marked, [["1"; "2"]])
  ∧ twin_results !! 0%nat
    = Some (CardResult "1" sample_b sample_i sample_n sample_g sample_o
              true "Card 1: Valid")
  ∧ ((res_id
        <$> filter (λ r', fingerprint_of r'
                          = fingerprint_of
                              (CardResult "1" sample_b sample_i sample_n
                                 sample_g sample_o true "Card 1: Valid"))
              twin_results) ∈ [["1"; "2"]]
     ↔ ∃ j r2, j ≠ 0%nat ∧ twin_results !! j = Some r2
               ∧ fingerprint_of r2
                 = fingerprint_of
                     (CardResult "1" sample_b sample_i sample_n sample_g
                        sample_o true "Card 1: Valid")).
Proof.
  assert (mark_duplicates twin_results
          = Ok (twin_results_marked, [["1"; "2"]])) as Hm by by vm_compute.
  split; [exact Hm|]. split; [reflexivity|].
  apply (shared_content_reported twin_results twin_results_marked
           [["1"; "2"]] 0 _ Hm). reflexivity.
Defined.
